(** * combine_pdf: the pure-Python PDF builder and its JPEG header scan

    A shallow embedding of [_jpeg_dimensions], [_build_jpeg_pdf] and
    [combine_via_sips] from [combine_pdf.py]; what [combine_via_sips] does
    outside the file (running [sips], reading and writing files) is a
    parameter of its model.

    Conventions.
    - Python [bytes]/[bytearray] values are [list Byte.byte].
    - Python [int] values are [Z]; [len(...)] is [Z.of_nat (length ...)].
    - The [offsets] dictionary is a [gmap Z Z].
    - A call either returns ([Ok]) or raises ([Raise]); loops that are not
      structurally recursive take fuel, and [Fuel] is the answer of a run
      that exhausted it (shown below never to happen). *)

From Stdlib Require Import ZArith List Lia Strings.Ascii Strings.String Strings.Byte.
From Stdlib Require Import DecimalString DecimalZ DecimalPos.
From stdpp Require Import gmap.

Local Open Scope Z_scope.

(** ** Bytes, exceptions and results *)

Abbreviation bytes := (list Byte.byte).

(** [s.encode()] for the ASCII-only literals of the source. *)
Definition encode (s : string) : bytes := list_byte_of_string s.

(** The byte of ["\n"]. *)
Definition nl : bytes := [Byte.x0a].

Inductive exn : Type :=
| ValueError (msg : string)
| IndexError.

Inductive res (A : Type) : Type :=
| Ok (a : A)
| Raise (e : exn)
| Fuel.

Arguments Ok {A} a.
Arguments Raise {A} e.
Arguments Fuel {A}.

(** An exception raised by a sub-expression ends the whole statement. *)
#[global] Instance res_bind : MBind res := fun A B k m =>
  match m with
  | Ok a => k a
  | Raise e => Raise e
  | Fuel => Fuel
  end.

(** [l[i]] on a list. *)
Definition getitem {A : Type} (l : list A) (i : Z) : res A :=
  let n := Z.of_nat (length l) in
  let j := if i <? 0 then i + n else i in
  if (0 <=? j) && (j <? n) then
    match nth_error l (Z.to_nat j) with
    | Some a => Ok a
    | None => Raise IndexError
    end
  else Raise IndexError.

(** [data[i]] on a [bytes] object: an [int] in [0, 255]. *)
Definition index (data : bytes) (i : Z) : res Z :=
  b ← getitem data i; Ok (Z.of_N (Byte.to_N b)).

(** ** [_jpeg_dimensions] *)

Definition parse_failure : exn := ValueError "Could not parse JPEG dimensions".

(** [marker in (0xC0, 0xC1, 0xC2)] *)
Definition is_sof (marker : Z) : bool :=
  (marker =? 0xC0) || (marker =? 0xC1) || (marker =? 0xC2).

(** [(hi << 8) | lo] *)
Definition be16 (hi lo : Z) : Z := Z.lor (Z.shiftl hi 8) lo.

(** The [while] loop, entered with cursor [i].  Leaving the loop (guard
    false, or [break]) reaches the [raise] that follows it. *)
Fixpoint scan (fuel : nat) (data : bytes) (i : Z) : res (Z * Z) :=
  match fuel with
  | O => Fuel
  | S fuel' =>
      if i <? Z.of_nat (length data) - 8 then
        b ← index data i;
        if negb (b =? 0xFF) then Raise parse_failure
        else
          marker ← index data (i + 1);
          if is_sof marker then
            h1 ← index data (i + 5);
            h0 ← index data (i + 6);
            let h := be16 h1 h0 in
            w1 ← index data (i + 7);
            w0 ← index data (i + 8);
            let w := be16 w1 w0 in
            Ok (w, h)
          else
            l1 ← index data (i + 2);
            l0 ← index data (i + 3);
            let seg_len := be16 l1 l0 in
            scan fuel' data (i + (2 + seg_len))
      else Raise parse_failure
  end.

(** The cursor grows by at least two per iteration, so [len(data) + 1]
    iterations are more than the loop can make. *)
Definition _jpeg_dimensions (data : bytes) : res (Z * Z) :=
  scan (S (length data)) data 2.

(** The cursor positions at which the loop guard is evaluated. *)
Inductive cursor (data : bytes) : Z -> Prop :=
| cursor_start : cursor data 2
| cursor_next i marker l1 l0 :
    cursor data i ->
    i < Z.of_nat (length data) - 8 ->
    index data i = Ok 0xFF ->
    index data (i + 1) = Ok marker ->
    is_sof marker = false ->
    index data (i + 2) = Ok l1 ->
    index data (i + 3) = Ok l0 ->
    cursor data (i + (2 + be16 l1 l0)).

(** ** Test streams *)

(** A marker segment that is not a start of frame: [0xFF], the marker
    code, the two length bytes and the payload. *)
Record segment : Type := Segment {
  seg_code : Byte.byte;
  seg_hi : Byte.byte;
  seg_lo : Byte.byte;
  seg_payload : bytes
}.

Definition byte_val (b : Byte.byte) : Z := Z.of_N (Byte.to_N b).

Definition segment_bytes (s : segment) : bytes :=
  Byte.xff :: seg_code s :: seg_hi s :: seg_lo s :: seg_payload s.

(** The marker code is none of 0xC0, 0xC1, 0xC2, and the length field,
    read as a big-endian number, counts itself and the payload. *)
Definition segment_ok (s : segment) : Prop :=
  seg_code s <> Byte.xc0 /\ seg_code s <> Byte.xc1 /\
  seg_code s <> Byte.xc2 /\
  256 * byte_val (seg_hi s) + byte_val (seg_lo s)
  = 2 + Z.of_nat (length (seg_payload s)).

(** Signature, metadata segments, then the start-of-frame segment (marker,
    length, precision, height, width) and whatever follows it. *)
Definition jpeg_stream (s0 s1 : Byte.byte) (segs : list segment)
    (code l1 l0 p h1 h0 w1 w0 : Byte.byte) (rest : bytes) : bytes :=
  [s0; s1] ++ concat (map segment_bytes segs)
  ++ [Byte.xff; code; l1; l0; p; h1; h0; w1; w0] ++ rest.

(** The smallest well-formed single-frame stream, 100 wide and 50 high. *)
Definition minimal_jpeg : bytes :=
  [Byte.xff; Byte.xd8;
   Byte.xff; Byte.xc0; Byte.x00; Byte.x0b; Byte.x08;
   Byte.x00; Byte.x32; Byte.x00; Byte.x64].

(** A frame header whose two dimension fields are zero. *)
Definition zero_frame_jpeg : bytes :=
  [Byte.xff; Byte.xd8;
   Byte.xff; Byte.xc0; Byte.x00; Byte.x0b; Byte.x08;
   Byte.x00; Byte.x00; Byte.x00; Byte.x00].

(** Signature and one empty metadata segment, nothing else. *)
Definition truncated_jpeg : bytes :=
  [Byte.xff; Byte.xd8; Byte.xff; Byte.xe0; Byte.x00; Byte.x02].

(** Where the loop gives up at cursor [i]: fewer than nine bytes are left,
    or the byte under the cursor is not the marker prefix. *)
Definition stops_at (data : bytes) (i : Z) : Prop :=
  Z.of_nat (length data) - 8 <= i \/
  (exists b, index data i = Ok b /\ b <> 0xFF).

(** The narrower reading: the cursor itself is beyond the last byte, or
    the byte under it is not the marker prefix. *)
Definition past_end_or_bad_prefix (data : bytes) (i : Z) : Prop :=
  Z.of_nat (length data) <= i \/
  (exists b, index data i = Ok b /\ b <> 0xFF).

(** What the body of the loop does at a cursor, case by case. *)
Inductive iteration (data : bytes) (i : Z) : Prop :=
| it_exhausted :
    Z.of_nat (length data) - 8 <= i -> iteration data i
| it_break b :
    i < Z.of_nat (length data) - 8 ->
    index data i = Ok b -> b <> 0xFF -> iteration data i
| it_frame marker h1 h0 w1 w0 :
    i < Z.of_nat (length data) - 8 ->
    index data i = Ok 0xFF ->
    index data (i + 1) = Ok marker -> is_sof marker = true ->
    index data (i + 5) = Ok h1 -> index data (i + 6) = Ok h0 ->
    index data (i + 7) = Ok w1 -> index data (i + 8) = Ok w0 ->
    iteration data i
| it_skip marker l1 l0 :
    i < Z.of_nat (length data) - 8 ->
    index data i = Ok 0xFF ->
    index data (i + 1) = Ok marker -> is_sof marker = false ->
    index data (i + 2) = Ok l1 -> index data (i + 3) = Ok l0 ->
    iteration data i.

(** Fuel that cannot run out at cursor [i]. *)
Definition enough (fuel : nat) (data : bytes) (i : Z) : Prop :=
  (0 < fuel)%nat /\ Z.of_nat (length data) - i < Z.of_nat fuel.

(** ** [_build_jpeg_pdf] *)

(** [str(n)], which is also what [f"{n}"] writes for an [int]. *)
Definition str (n : Z) : bytes := encode (NilZero.string_of_int (Z.to_int n)).

(** [f"{n:010d}"]: zero-padded to ten characters, the sign first. *)
Definition fmt_010d (n : Z) : bytes :=
  if n <? 0 then
    encode "-" ++ repeat Byte.x30 (9 - length (str (- n))) ++ str (- n)
  else repeat Byte.x30 (10 - length (str n)) ++ str n.

(** [sep.join(parts)] *)
Fixpoint join (sep : bytes) (parts : list bytes) : bytes :=
  match parts with
  | [] => []
  | [p] => p
  | p :: ps => p ++ sep ++ join sep ps
  end.

(** [range(a, b)] *)
Definition range (a b : Z) : list Z :=
  map (fun k => a + Z.of_nat k) (seq 0 (Z.to_nat (b - a))).

(** [max(...)] over a non-empty iteration: the greatest element seen. *)
Definition max_of (keys : list Z) : res Z :=
  match keys with
  | [] => Raise (ValueError "max() arg is an empty sequence")
  | k :: ks => Ok (fold_left Z.max ks k)
  end.

(** The order in which a run enumerates the keys of a dictionary. *)
Definition key_order : Type := gmap Z Z -> list Z.

(** An order is any enumeration of exactly the keys, each once. *)
Definition enumerates (order : key_order) : Prop :=
  forall d : gmap Z Z, order d ≡ₚ elements (dom d).

Definition default_order : key_order := fun d => elements (dom d).

(** [max(d)] over the keys of a dictionary. *)
Definition max_key (d : gmap Z Z) : res Z := max_of (default_order d).

(** One entry of the input: [(jpeg_bytes, width, height)]. *)
Definition page : Type := bytes * Z * Z.

(** The two things the closure [add_obj] writes to. *)
Record state : Type := State {
  buf : bytes;
  offsets : gmap Z Z
}.

Definition add_obj (num : Z) (data : bytes) (st : state) : state :=
  let offsets' := <[num := Z.of_nat (length (buf st))]> (offsets st) in
  let buf' := buf st ++ (str num ++ encode " 0 obj" ++ nl) in
  let buf' := buf' ++ data in
  let buf' := buf' ++ (nl ++ encode "endobj" ++ nl) in
  State buf' offsets'.

Definition catalog_num : Z := 1.
Definition pages_num : Z := 2.

(** [b"%PDF-1.4\n%\xe2\xe3\xcf\xd3\n"] *)
Definition pdf_header : bytes :=
  encode "%PDF-1.4" ++ nl
  ++ [Byte.x25; Byte.xe2; Byte.xe3; Byte.xcf; Byte.xd3] ++ nl.

Definition catalog_dict : bytes :=
  encode "<<" ++ nl ++ encode "/Type /Catalog" ++ nl
  ++ encode "/Pages " ++ str pages_num ++ encode " 0 R" ++ nl ++ encode ">>".

Definition pages_dict (page_nums : list Z) (n : Z) : bytes :=
  let kids := join (encode " ")
                (map (fun pn => str pn ++ encode " 0 R") page_nums) in
  encode "<<" ++ nl ++ encode "/Type /Pages" ++ nl
  ++ encode "/Kids [" ++ kids ++ encode "]" ++ nl
  ++ encode "/Count " ++ str n ++ nl ++ encode ">>".

(** [img_hdr + jpeg + b"\nendstream"] *)
Definition image_xobject (jpeg : bytes) (w h : Z) : bytes :=
  let img_hdr :=
    encode "<<" ++ nl ++ encode "/Type /XObject" ++ nl
    ++ encode "/Subtype /Image" ++ nl
    ++ encode "/Width " ++ str w ++ nl ++ encode "/Height " ++ str h ++ nl
    ++ encode "/ColorSpace /DeviceRGB" ++ nl
    ++ encode "/BitsPerComponent 8" ++ nl
    ++ encode "/Filter /DCTDecode" ++ nl
    ++ encode "/Length " ++ str (Z.of_nat (length jpeg)) ++ nl
    ++ encode ">>" ++ nl ++ encode "stream" ++ nl in
  img_hdr ++ jpeg ++ (nl ++ encode "endstream").

(** [cs_hdr + content + b"\nendstream"] *)
Definition content_stream (w h : Z) : bytes :=
  let content :=
    encode "q " ++ str w ++ encode " 0 0 " ++ str h
    ++ encode " 0 0 cm /Im Do Q" in
  let cs_hdr :=
    encode "<<" ++ nl ++ encode "/Length "
    ++ str (Z.of_nat (length content)) ++ nl ++ encode ">>" ++ nl
    ++ encode "stream" ++ nl in
  cs_hdr ++ content ++ (nl ++ encode "endstream").

Definition page_dict (w h img_num content_num : Z) : bytes :=
  encode "<<" ++ nl ++ encode "/Type /Page" ++ nl
  ++ encode "/Parent " ++ str pages_num ++ encode " 0 R" ++ nl
  ++ encode "/MediaBox [0 0 " ++ str w ++ encode " " ++ str h ++ encode "]" ++ nl
  ++ encode "/Resources <<" ++ nl
  ++ encode "/XObject << /Im " ++ str img_num ++ encode " 0 R >>" ++ nl
  ++ encode ">>" ++ nl
  ++ encode "/Contents " ++ str content_num ++ encode " 0 R" ++ nl
  ++ encode ">>".

(** The body of [for i, (jpeg, w, h) in enumerate(pages)], from index [i]
    on. *)
Fixpoint emit_pages (img_nums content_nums page_nums : list Z)
    (i : Z) (pages : list page) (st : state) : res state :=
  match pages with
  | [] => Ok st
  | (jpeg, w, h) :: rest =>
      img ← getitem img_nums i;
      let st := add_obj img (image_xobject jpeg w h) st in
      cn ← getitem content_nums i;
      let st := add_obj cn (content_stream w h) st in
      pn ← getitem page_nums i;
      img' ← getitem img_nums i;
      cn' ← getitem content_nums i;
      let st := add_obj pn (page_dict w h img' cn') st in
      emit_pages img_nums content_nums page_nums (i + 1) rest st
  end.

(** Everything up to the comment [# Cross-reference table]. *)
Definition emit_objects (pages : list page) : res state :=
  let st := State [] ∅ in
  let n := Z.of_nat (length pages) in
  let img_nums := map (fun i => 3 + 3 * i) (range 0 n) in
  let content_nums := map (fun i => 4 + 3 * i) (range 0 n) in
  let page_nums := map (fun i => 5 + 3 * i) (range 0 n) in
  let st := State (buf st ++ pdf_header) (offsets st) in
  let st := add_obj catalog_num catalog_dict st in
  let st := add_obj pages_num (pages_dict page_nums n) st in
  emit_pages img_nums content_nums page_nums 0 pages st.

Definition xref_free_entry : bytes := encode "0000000000 65535 f " ++ nl.

(** One line of the [for num in range(1, max_num + 1)] loop. *)
Definition xref_entry (offsets : gmap Z Z) (num : Z) : bytes :=
  let off := default 0 (offsets !! num) in
  fmt_010d off ++ encode " 00000 n " ++ nl.

(** [trailer], the dictionary with [/Size] and [/Root]. *)
Definition trailer (size : Z) : bytes :=
  encode "trailer" ++ nl
  ++ (encode "<<" ++ nl ++ encode "/Size " ++ str size ++ nl
      ++ encode "/Root " ++ str catalog_num ++ encode " 0 R" ++ nl
      ++ encode ">>" ++ nl).

(** [startxref], the offset and the end-of-file marker. *)
Definition startxref (xref_offset : Z) : bytes :=
  encode "startxref" ++ nl ++ (str xref_offset ++ nl) ++ (encode "%%EOF" ++ nl).

(** From [# Cross-reference table] to the [return], in a run that
    enumerates dictionaries in the given order. *)
Definition finish_in (order : key_order) (st : state) : res bytes :=
  let xref_offset := Z.of_nat (length (buf st)) in
  max_num ← max_of (order (offsets st));
  let b := buf st ++ (encode "xref" ++ nl) in
  let b := b ++ (encode "0 " ++ str (max_num + 1) ++ nl) in
  let b := b ++ xref_free_entry in
  let b := fold_left (fun b num => b ++ xref_entry (offsets st) num)
             (range 1 (max_num + 1)) b in
  let b := b ++ trailer (max_num + 1) in
  let b := b ++ startxref xref_offset in
  Ok b.

(** One invocation of the builder. *)
Definition run (order : key_order) (pages : list page) : res bytes :=
  st ← emit_objects pages;
  finish_in order st.

Definition _build_jpeg_pdf (pages : list page) : res bytes :=
  run default_order pages.

(** The three pages of the layout example: 10x10, 20x30 and 5x5. *)
Definition three_pages : list page :=
  [([Byte.xff; Byte.xd8], 10, 10);
   ([Byte.xff; Byte.xd8; Byte.xff], 20, 30);
   ([], 5, 5)].

(** ** The document as a sequence of indirect objects *)

(** What one call of [add_obj] appends. *)
Definition obj_bytes (num : Z) (data : bytes) : bytes :=
  (str num ++ encode " 0 obj" ++ nl) ++ data ++ (nl ++ encode "endobj" ++ nl).

(** The three objects of the page with zero-based index [i], numbered by
    the layout formula. *)
Definition page_objects (i : Z) (p : page) : list (Z * bytes) :=
  let '(jpeg, w, h) := p in
  [(3 + 3 * i, image_xobject jpeg w h);
   (4 + 3 * i, content_stream w h);
   (5 + 3 * i, page_dict w h (3 + 3 * i) (4 + 3 * i))].

Fixpoint pages_objects (i : Z) (pages : list page) : list (Z * bytes) :=
  match pages with
  | [] => []
  | p :: rest => page_objects i p ++ pages_objects (i + 1) rest
  end.

Definition document_objects (pages : list page) : list (Z * bytes) :=
  let n := Z.of_nat (length pages) in
  (catalog_num, catalog_dict)
  :: (pages_num, pages_dict (map (fun i => 5 + 3 * i) (range 0 n)) n)
  :: pages_objects 0 pages.

Definition objs_bytes (objs : list (Z * bytes)) : bytes :=
  concat (map (fun o => obj_bytes (fst o) (snd o)) objs).

Definition write_all (objs : list (Z * bytes)) (st : state) : state :=
  fold_left (fun st o => add_obj (fst o) (snd o) st) objs st.

(** The buffer [b] holds the object [num] with body [data], starting at
    byte offset [off]. *)
Definition object_at (b : bytes) (off num : Z) (data : bytes) : Prop :=
  exists before after,
    b = before ++ obj_bytes num data ++ after /\
    Z.of_nat (length before) = off.

(** The buffer [b] holds the bytes [kw] starting at byte offset [off]. *)
Definition keyword_at (b : bytes) (off : Z) (kw : bytes) : Prop :=
  exists before after,
    b = before ++ kw ++ after /\ Z.of_nat (length before) = off.

(** Reading back a decimal integer. *)
Definition parse_int (digits : bytes) : option Z :=
  match NilZero.int_of_string (string_of_list_byte digits) with
  | Some d => Some (Z.of_int d)
  | None => None
  end.

(** The lines of the cross-reference table, entry 0 first. *)
Definition xref_table (offsets : gmap Z Z) (max_num : Z) : list bytes :=
  xref_free_entry :: map (xref_entry offsets) (range 1 (max_num + 1)).

(** The cross-reference section: keyword, subsection header, entries. *)
Definition xref_section (offsets : gmap Z Z) (max_num : Z) : bytes :=
  (encode "xref" ++ nl) ++ (encode "0 " ++ str (max_num + 1) ++ nl)
  ++ concat (xref_table offsets max_num).

(** Text given line by line, each line ended by a newline. *)
Definition lines (ls : list string) : bytes :=
  concat (map (fun l => encode l ++ nl) ls).

(** The buffer built from no pages at all. *)
Definition empty_document : bytes :=
  pdf_header
  ++ lines ["1 0 obj"; "<<"; "/Type /Catalog"; "/Pages 2 0 R"; ">>"; "endobj";
            "2 0 obj"; "<<"; "/Type /Pages"; "/Kids []"; "/Count 0"; ">>";
            "endobj";
            "xref"; "0 3";
            "0000000000 65535 f ";
            "0000000015 00000 n ";
            "0000000064 00000 n ";
            "trailer"; "<<"; "/Size 3"; "/Root 1 0 R"; ">>";
            "startxref"; "116"; "%%EOF"]%string.

(** ** The marker chain and the frame header, byte by byte *)

(** The offsets of the chain of markers: the first marker is at offset 2;
    after a marker at [i] that has at least nine bytes from [i] on, the
    prefix 0xFF at [i], a code at [i + 1] that is none of 0xC0, 0xC1, 0xC2
    and the length bytes [l1], [l0] at [i + 2], [i + 3], the next marker is
    at [i + 2 + (256 * l1 + l0)]. *)
Inductive marker_at (data : bytes) : Z -> Prop :=
| marker_first : marker_at data 2
| marker_next i code l1 l0 :
    marker_at data i ->
    i + 8 < Z.of_nat (length data) ->
    index data i = Ok 0xFF ->
    index data (i + 1) = Ok code ->
    code <> 0xC0 -> code <> 0xC1 -> code <> 0xC2 ->
    index data (i + 2) = Ok l1 ->
    index data (i + 3) = Ok l0 ->
    marker_at data (i + 2 + (256 * l1 + l0)).

(** A frame header at [i]: at least nine bytes from [i] on, 0xFF at [i],
    one of the codes 0xC0, 0xC1, 0xC2 at [i + 1], and the four bytes at
    [i + 5 .. i + 8] are the big-endian height [h] and width [w]. *)
Definition frame_at (data : bytes) (i w h : Z) : Prop :=
  i + 8 < Z.of_nat (length data) /\
  index data i = Ok 0xFF /\
  (index data (i + 1) = Ok 0xC0 \/ index data (i + 1) = Ok 0xC1 \/
   index data (i + 1) = Ok 0xC2) /\
  exists h1 h0 w1 w0,
    index data (i + 5) = Ok h1 /\ index data (i + 6) = Ok h0 /\
    index data (i + 7) = Ok w1 /\ index data (i + 8) = Ok w0 /\
    w = 256 * w1 + w0 /\ h = 256 * h1 + h0.

(** ** [combine_via_sips] *)

(** A Python [str], as its sequence of characters. *)
Abbreviation text := (list ascii).

Definition chars (s : string) : text := list_ascii_of_string s.

(** [s.startswith(old)] *)
Fixpoint starts_with (old s : text) : bool :=
  match old, s with
  | [], _ => true
  | a :: old', b :: s' => Ascii.eqb a b && starts_with old' s'
  | _ :: _, [] => false
  end.

(** [s.replace(old, new)] for a non-empty [old]: the occurrences of [old]
    are replaced from left to right, without overlap.  Each step consumes
    at least one character, so [len(s)] steps are enough. *)
Fixpoint replace_from (fuel : nat) (old new s : text) : text :=
  match fuel with
  | O => s
  | S fuel' =>
      match s with
      | [] => []
      | c :: s' =>
          if starts_with old s
          then new ++ replace_from fuel' old new (skipn (length old) s)
          else c :: replace_from fuel' old new s'
      end
  end.

Definition replace (old new s : text) : text :=
  replace_from (length s) old new s.

(** [png_path.replace(".png", "_tmp.jpg")] *)
Definition tmp_jpg_path (png_path : text) : text :=
  replace (chars ".png") (chars "_tmp.jpg") png_path.

(** [old] occurs somewhere in [s]. *)
Definition occurs (old s : text) : Prop :=
  exists before after, s = before ++ old ++ after.

(** What the steps of one iteration outside this file come to: [sips] is
    run on [png_path] with [jpg_path] as output, the output file is tested
    for, read and removed.  Either the bytes of the JPEG file are there,
    or the iteration is abandoned with [continue], or one of the steps
    raises. *)
Inductive conversion : Type :=
| Converted (jpeg_data : bytes)
| NotConverted
| ConversionError.

(** The [for png_path in png_files] loop, entered with the pages collected
    so far; [None] when an exception leaves the loop. *)
Fixpoint sips_loop (sips : text -> text -> conversion)
    (png_files : list text) (pages : list page) : option (list page) :=
  match png_files with
  | [] => Some pages
  | png_path :: rest =>
      let jpg_path := tmp_jpg_path png_path in
      match sips png_path jpg_path with
      | NotConverted => sips_loop sips rest pages
      | ConversionError => None
      | Converted jpeg_data =>
          match _jpeg_dimensions jpeg_data with
          | Ok (w, h) => sips_loop sips rest (pages ++ [(jpeg_data, w, h)])
          | _ => None
          end
      end
  end.

(** [combine_via_sips]: the value returned, and the document stored at
    [output_path] when the write went through.  [store] stands for creating
    the directory, opening the file and writing it, and tells whether all
    of that passed without an exception.  Every exception is caught and
    turns into [False]. *)
Definition combine_via_sips (sips : text -> text -> conversion)
    (store : text -> bytes -> bool)
    (png_files : list text) (output_path : text) : bool * option bytes :=
  match sips_loop sips png_files [] with
  | None => (false, None)
  | Some [] => (false, None)
  | Some pages =>
      match _build_jpeg_pdf pages with
      | Ok pdf_bytes =>
          if store output_path pdf_bytes
          then (true, Some pdf_bytes)
          else (false, None)
      | _ => (false, None)
      end
  end.

(** The page that one input file contributes, if any. *)
Definition page_of (sips : text -> text -> conversion) (png_path : text)
    : option page :=
  match sips png_path (tmp_jpg_path png_path) with
  | Converted jpeg_data =>
      match _jpeg_dimensions jpeg_data with
      | Ok (w, h) => Some (jpeg_data, w, h)
      | _ => None
      end
  | _ => None
  end.

(** The file gets through the loop body without an exception. *)
Definition passes (sips : text -> text -> conversion) (png_path : text)
    : Prop :=
  match sips png_path (tmp_jpg_path png_path) with
  | Converted jpeg_data => exists w h, _jpeg_dimensions jpeg_data = Ok (w, h)
  | NotConverted => True
  | ConversionError => False
  end.

(* ================================================================== *)
(** * Properties of [_jpeg_dimensions] *)

Section Parser.

Lemma index_in_range (data : bytes) (i : Z) :
  0 <= i < Z.of_nat (length data) ->
  exists b, nth_error data (Z.to_nat i) = Some b /\ index data i = Ok (byte_val b).
Proof.
  intros Hi. unfold index, getitem.
  destruct (Z.ltb_spec i 0) as [?|_]; [lia|].
  destruct (Z.leb_spec 0 i) as [_|?]; [|lia].
  destruct (Z.ltb_spec i (Z.of_nat (length data))) as [_|?]; [|lia].
  cbn [andb].
  destruct (nth_error data (Z.to_nat i)) as [b|] eqn:E.
  - exists b. split; reflexivity.
  - apply nth_error_None in E. lia.
Qed.

Lemma byte_val_range (b : Byte.byte) : 0 <= byte_val b < 256.
Proof.
  unfold byte_val. pose proof (Byte.to_N_bounded b). lia.
Qed.

Lemma is_sof_codes (marker : Z) :
  is_sof marker = true <-> marker = 0xC0 \/ marker = 0xC1 \/ marker = 0xC2.
Proof.
  unfold is_sof. rewrite !orb_true_iff, !Z.eqb_eq. tauto.
Qed.

Lemma is_sof_other (marker : Z) :
  is_sof marker = false <->
  marker <> 0xC0 /\ marker <> 0xC1 /\ marker <> 0xC2.
Proof.
  unfold is_sof. rewrite !orb_false_iff, !Z.eqb_neq. tauto.
Qed.

Lemma byte_val_inj (a b : Byte.byte) : byte_val a = byte_val b -> a = b.
Proof.
  unfold byte_val. intros H. apply N2Z.inj in H.
  assert (Ha := Byte.of_to_N a). assert (Hb := Byte.of_to_N b).
  rewrite H in Ha. congruence.
Qed.

Lemma is_sof_byte (code : Byte.byte) :
  code = Byte.xc0 \/ code = Byte.xc1 \/ code = Byte.xc2 ->
  is_sof (byte_val code) = true.
Proof. intros [-> | [-> | ->]]; reflexivity. Qed.

Lemma segment_ok_inv (s : segment) :
  segment_ok s ->
  is_sof (byte_val (seg_code s)) = false /\
  256 * byte_val (seg_hi s) + byte_val (seg_lo s)
  = 2 + Z.of_nat (length (seg_payload s)).
Proof.
  intros (H0 & H1 & H2 & Hlen). split; [|exact Hlen].
  apply is_sof_other.
  repeat split; intros H;
    [apply H0|apply H1|apply H2]; apply byte_val_inj; rewrite H; reflexivity.
Qed.

Lemma index_value_range (data : bytes) (i v : Z) :
  index data i = Ok v -> 0 <= v < 256.
Proof.
  unfold index, getitem.
  destruct ((0 <=? _) && _); [|discriminate].
  destruct (nth_error _ _) as [b|]; [|discriminate].
  intros [= <-]. apply byte_val_range.
Qed.

Lemma be16_arith (hi lo : Z) :
  0 <= hi < 256 -> 0 <= lo < 256 -> be16 hi lo = 256 * hi + lo.
Proof.
  intros Hhi Hlo. unfold be16.
  rewrite Z.shiftl_mul_pow2 by lia.
  assert (Hland : Z.land (hi * 2 ^ 8) lo = 0).
  { apply Z.bits_inj'. intros n Hn.
    rewrite Z.land_spec, Z.bits_0.
    destruct (Z.lt_ge_cases n 8) as [Hlt|Hge].
    - rewrite Z.mul_pow2_bits_low by lia. reflexivity.
    - destruct (Z.eq_dec lo 0) as [->|Hne].
      + rewrite Z.bits_0. apply andb_false_r.
      + rewrite (Z.bits_above_log2 lo n); [apply andb_false_r|lia|].
        assert (Z.log2 lo < 8); [|lia].
        apply Z.log2_lt_pow2; lia. }
  rewrite <- Z.lxor_lor by exact Hland.
  rewrite <- Z.add_nocarry_lxor by exact Hland.
  lia.
Qed.

Lemma be16_range (hi lo : Z) :
  0 <= hi < 256 -> 0 <= lo < 256 -> 0 <= be16 hi lo < 65536.
Proof.
  intros Hhi Hlo. rewrite be16_arith by assumption. lia.
Qed.

(** *** One iteration of the loop *)

Lemma scan_exhausted fuel data i :
  Z.of_nat (length data) - 8 <= i -> scan (S fuel) data i = Raise parse_failure.
Proof.
  intros H. cbn [scan].
  destruct (Z.ltb_spec i (Z.of_nat (length data) - 8)); [lia|reflexivity].
Qed.

Lemma scan_break fuel data i b :
  i < Z.of_nat (length data) - 8 ->
  index data i = Ok b -> b <> 0xFF ->
  scan (S fuel) data i = Raise parse_failure.
Proof.
  intros Hg Hb Hne. cbn [scan].
  destruct (Z.ltb_spec i (Z.of_nat (length data) - 8)); [|lia].
  rewrite Hb. cbn.
  destruct (Z.eqb_spec b 255); [contradiction|reflexivity].
Qed.

Lemma scan_frame fuel data i marker h1 h0 w1 w0 :
  i < Z.of_nat (length data) - 8 ->
  index data i = Ok 0xFF ->
  index data (i + 1) = Ok marker -> is_sof marker = true ->
  index data (i + 5) = Ok h1 -> index data (i + 6) = Ok h0 ->
  index data (i + 7) = Ok w1 -> index data (i + 8) = Ok w0 ->
  scan (S fuel) data i = Ok (be16 w1 w0, be16 h1 h0).
Proof.
  intros Hg Hb Hm Hs H5 H6 H7 H8. cbn [scan].
  destruct (Z.ltb_spec i (Z.of_nat (length data) - 8)); [|lia].
  rewrite Hb. cbn. rewrite Hm. cbn. rewrite Hs, H5. cbn.
  rewrite H6. cbn. rewrite H7. cbn. rewrite H8. reflexivity.
Qed.

Lemma scan_skip fuel data i marker l1 l0 :
  i < Z.of_nat (length data) - 8 ->
  index data i = Ok 0xFF ->
  index data (i + 1) = Ok marker -> is_sof marker = false ->
  index data (i + 2) = Ok l1 -> index data (i + 3) = Ok l0 ->
  scan (S fuel) data i = scan fuel data (i + (2 + be16 l1 l0)).
Proof.
  intros Hg Hb Hm Hs H2 H3. cbn [scan].
  destruct (Z.ltb_spec i (Z.of_nat (length data) - 8)); [|lia].
  rewrite Hb. cbn. rewrite Hm. cbn. rewrite Hs, H2. cbn.
  rewrite H3. reflexivity.
Qed.

(** Under the loop guard every one of the nine reads succeeds. *)
Lemma guarded_read data i k :
  0 <= i -> i < Z.of_nat (length data) - 8 -> 0 <= k <= 8 ->
  exists v, index data (i + k) = Ok v /\ 0 <= v < 256.
Proof.
  intros Hi Hg Hk.
  destruct (index_in_range data (i + k)) as (b & _ & Hb); [lia|].
  exists (byte_val b). split; [exact Hb|apply byte_val_range].
Qed.

Lemma iteration_cases data i : 0 <= i -> iteration data i.
Proof.
  intros Hi.
  destruct (Z.le_gt_cases (Z.of_nat (length data) - 8) i) as [Hge|Hg].
  { apply it_exhausted; exact Hge. }
  assert (Hrd : forall k, 0 <= k <= 8 ->
            exists v, index data (i + k) = Ok v /\ 0 <= v < 256)
    by (intros; apply guarded_read; lia).
  destruct (Hrd 0) as (b & Hb & _); [lia|]. rewrite Z.add_0_r in Hb.
  destruct (Z.eq_dec b 255) as [->|Hne].
  2: { eapply it_break; eassumption. }
  destruct (Hrd 1) as (m & Hm & _); [lia|].
  destruct (is_sof m) eqn:Hs.
  - destruct (Hrd 5) as (h1 & H5 & _); [lia|].
    destruct (Hrd 6) as (h0 & H6 & _); [lia|].
    destruct (Hrd 7) as (w1 & H7 & _); [lia|].
    destruct (Hrd 8) as (w0 & H8 & _); [lia|].
    eapply it_frame; eassumption.
  - destruct (Hrd 2) as (l1 & H2 & _); [lia|].
    destruct (Hrd 3) as (l0 & H3 & _); [lia|].
    eapply it_skip; eassumption.
Qed.

Lemma enough_start data : enough (S (length data)) data 2.
Proof. unfold enough. lia. Qed.

Lemma enough_skip fuel data i l1 l0 :
  enough (S fuel) data i ->
  i < Z.of_nat (length data) - 8 ->
  index data (i + 2) = Ok l1 -> index data (i + 3) = Ok l0 ->
  enough fuel data (i + (2 + be16 l1 l0)).
Proof.
  intros [_ Hf] Hg H2 H3.
  pose proof (be16_range l1 l0 (index_value_range _ _ _ H2)
                (index_value_range _ _ _ H3)).
  unfold enough. lia.
Qed.

Lemma skip_advances data i l1 l0 :
  index data (i + 2) = Ok l1 -> index data (i + 3) = Ok l0 ->
  i + 2 <= i + (2 + be16 l1 l0).
Proof.
  intros H2 H3.
  pose proof (be16_range l1 l0 (index_value_range _ _ _ H2)
                (index_value_range _ _ _ H3)). lia.
Qed.

Lemma cursor_lower_bound data i : cursor data i -> 2 <= i.
Proof.
  induction 1 as [|i m l1 l0 _ IH _ _ _ _ H2 H3]; [lia|].
  pose proof (skip_advances data i l1 l0 H2 H3). lia.
Qed.

(** With enough fuel the loop ends in a pair or in the [raise] after it. *)
Lemma scan_total fuel : forall data i,
  0 <= i -> enough fuel data i ->
  (exists w h, scan fuel data i = Ok (w, h)) \/
  scan fuel data i = Raise parse_failure.
Proof.
  induction fuel as [|fuel IH]; intros data i Hi Hen.
  { destruct Hen; lia. }
  destruct (iteration_cases data i Hi)
    as [Hge|b Hg Hb Hne|m h1 h0 w1 w0 Hg Hb Hm Hs H5 H6 H7 H8
        |m l1 l0 Hg Hb Hm Hs H2 H3].
  - right. apply scan_exhausted; exact Hge.
  - right. eapply scan_break; eassumption.
  - left. eexists _, _. eapply scan_frame; eassumption.
  - rewrite (scan_skip fuel data i m l1 l0) by assumption.
    apply IH.
    + pose proof (skip_advances data i l1 l0 H2 H3). lia.
    + eapply enough_skip; eassumption.
Qed.

(** The run from the start passes through every cursor position. *)
Lemma scan_through data j :
  cursor data j ->
  exists fuel, enough fuel data j /\ _jpeg_dimensions data = scan fuel data j.
Proof.
  induction 1 as [|i m l1 l0 Hc IH Hg Hb Hm Hs H2 H3].
  - exists (S (length data)). split; [apply enough_start|reflexivity].
  - destruct IH as (fuel & Hen & Heq).
    destruct fuel as [|fuel]; [destruct Hen; lia|].
    exists fuel. split; [eapply enough_skip; eassumption|].
    rewrite Heq. eapply scan_skip; eassumption.
Qed.

Lemma scan_stops fuel data i :
  enough fuel data i -> stops_at data i ->
  scan fuel data i = Raise parse_failure.
Proof.
  intros Hen Hst.
  destruct fuel as [|fuel]; [destruct Hen; lia|].
  destruct (Z.le_gt_cases (Z.of_nat (length data) - 8) i) as [Hge|Hg].
  { apply scan_exhausted; exact Hge. }
  destruct Hst as [?|(b & Hb & Hne)]; [lia|].
  eapply scan_break; eassumption.
Qed.

Lemma scan_raise_stops fuel : forall data i,
  cursor data i -> enough fuel data i ->
  scan fuel data i = Raise parse_failure ->
  exists j, cursor data j /\ stops_at data j.
Proof.
  induction fuel as [|fuel IH]; intros data i Hc Hen Hr.
  { destruct Hen; lia. }
  pose proof (cursor_lower_bound data i Hc) as Hi.
  destruct (iteration_cases data i)
    as [Hge|b Hg Hb Hne|m h1 h0 w1 w0 Hg Hb Hm Hs H5 H6 H7 H8
        |m l1 l0 Hg Hb Hm Hs H2 H3]; [lia| | | |].
  - exists i. split; [exact Hc|left; exact Hge].
  - exists i. split; [exact Hc|right; eauto].
  - rewrite (scan_frame fuel data i m h1 h0 w1 w0) in Hr by assumption.
    discriminate.
  - rewrite (scan_skip fuel data i m l1 l0) in Hr by assumption.
    apply (IH data (i + (2 + be16 l1 l0))).
    + eapply cursor_next; eassumption.
    + eapply enough_skip; eassumption.
    + exact Hr.
Qed.

(** *** Reading a stream that is laid out segment by segment *)

Lemma index_app_at (pre suf : bytes) (k : Z) (b : Byte.byte) :
  0 <= k -> nth_error suf (Z.to_nat k) = Some b ->
  index (pre ++ suf) (Z.of_nat (length pre) + k) = Ok (byte_val b).
Proof.
  intros Hk0 Hk.
  assert (Hlt : (Z.to_nat k < length suf)%nat)
    by (apply nth_error_Some; congruence).
  destruct (index_in_range (pre ++ suf) (Z.of_nat (length pre) + k))
    as (b' & Hn & Hb').
  { rewrite length_app. lia. }
  rewrite Hb'. f_equal. f_equal.
  replace (Z.to_nat (Z.of_nat (length pre) + k))
    with (length pre + Z.to_nat k)%nat in Hn by lia.
  rewrite nth_error_app2 in Hn by lia.
  replace (length pre + Z.to_nat k - length pre)%nat with (Z.to_nat k) in Hn by lia.
  congruence.
Qed.

Lemma index_app_here (pre suf : bytes) (b : Byte.byte) :
  index (pre ++ b :: suf) (Z.of_nat (length pre)) = Ok (byte_val b).
Proof.
  rewrite <- (Z.add_0_r (Z.of_nat (length pre))).
  apply index_app_at; [lia|reflexivity].
Qed.

Lemma scan_segments (code l1 l0 p h1 h0 w1 w0 : Byte.byte) (rest : bytes)
    (segs : list segment) : forall (pre : bytes) (fuel : nat),
  Forall segment_ok segs ->
  is_sof (byte_val code) = true ->
  let data := pre ++ concat (map segment_bytes segs)
              ++ [Byte.xff; code; l1; l0; p; h1; h0; w1; w0] ++ rest in
  enough fuel data (Z.of_nat (length pre)) ->
  scan fuel data (Z.of_nat (length pre))
  = Ok (be16 (byte_val w1) (byte_val w0), be16 (byte_val h1) (byte_val h0)).
Proof.
  induction segs as [|s segs IH]; intros pre fuel Hok Hsof data Hen.
  - destruct fuel as [|fuel]; [destruct Hen; lia|].
    subst data. cbn [map concat app] in *.
    apply (scan_frame fuel _ _ (byte_val code) (byte_val h1) (byte_val h0)
             (byte_val w1) (byte_val w0)).
    + rewrite !length_app. cbn [length]. lia.
    + apply (index_app_here pre _ Byte.xff).
    + apply index_app_at; [lia|reflexivity].
    + exact Hsof.
    + apply index_app_at; [lia|reflexivity].
    + apply index_app_at; [lia|reflexivity].
    + apply index_app_at; [lia|reflexivity].
    + apply index_app_at; [lia|reflexivity].
  - destruct fuel as [|fuel]; [destruct Hen; lia|].
    inversion Hok as [|? ? Hs Hok']; subst.
    destruct (segment_ok_inv s Hs) as [Hcode Hlen]. clear Hs.
    destruct s as [c hi lo payload]. cbn [seg_code seg_hi seg_lo seg_payload] in *.
    set (tl := concat (map segment_bytes segs)
               ++ [Byte.xff; code; l1; l0; p; h1; h0; w1; w0] ++ rest) in *.
    assert (Hdata : data = pre ++ (Byte.xff :: c :: hi :: lo :: payload ++ tl)).
    { subst data tl. cbn [map concat segment_bytes seg_code seg_hi seg_lo seg_payload].
      rewrite <- !app_assoc. reflexivity. }
    assert (Hlen_tl : (9 <= length tl)%nat).
    { subst tl. rewrite !length_app. cbn [length]. lia. }
    assert (Hlen_data : Z.of_nat (length data)
              = Z.of_nat (length pre) + 4 + Z.of_nat (length payload)
                + Z.of_nat (length tl)).
    { rewrite Hdata. rewrite length_app. cbn [length]. rewrite length_app. lia. }
    rewrite (scan_skip fuel data (Z.of_nat (length pre)) (byte_val c)
               (byte_val hi) (byte_val lo)); try assumption.
    2: { lia. }
    2: { rewrite Hdata. apply (index_app_here pre _ Byte.xff). }
    2: { rewrite Hdata. apply index_app_at; [lia|reflexivity]. }
    2: { rewrite Hdata. apply index_app_at; [lia|reflexivity]. }
    2: { rewrite Hdata. apply index_app_at; [lia|reflexivity]. }
    rewrite be16_arith by apply byte_val_range.
    rewrite Hlen.
    set (pre' := pre ++ segment_bytes (Segment c hi lo payload)).
    assert (Hpre' : Z.of_nat (length pre')
              = Z.of_nat (length pre) + (2 + (2 + Z.of_nat (length payload)))).
    { subst pre'. rewrite length_app.
      cbn [segment_bytes length seg_code seg_hi seg_lo seg_payload]. lia. }
    rewrite <- Hpre'.
    assert (Hdata' : data = pre' ++ concat (map segment_bytes segs)
                            ++ [Byte.xff; code; l1; l0; p; h1; h0; w1; w0] ++ rest).
    { rewrite Hdata. subst tl pre'.
      cbn [segment_bytes seg_code seg_hi seg_lo seg_payload].
      rewrite <- !app_assoc. reflexivity. }
    assert (Hen' : enough fuel data (Z.of_nat (length pre')))
      by (destruct Hen as [_ Hen]; unfold enough; lia).
    rewrite Hdata' in Hen' |- *. apply IH; assumption.
Qed.

End Parser.

(** C6. A stream made of the two signature bytes, any number of segments
    whose marker code is none of 0xC0, 0xC1, 0xC2 and whose length field
    is right, and a frame segment with marker code 0xC0, 0xC1 or 0xC2 is
    parsed to (width, height), the two big-endian 16-bit fields that
    follow the length and precision bytes; whatever follows the frame
    header is not looked at. *)
Theorem jpeg_dimensions_well_formed
    (s0 s1 : Byte.byte) (segs : list segment)
    (code l1 l0 p h1 h0 w1 w0 : Byte.byte) (rest : bytes) :
  Forall segment_ok segs ->
  code = Byte.xc0 \/ code = Byte.xc1 \/ code = Byte.xc2 ->
  _jpeg_dimensions (jpeg_stream s0 s1 segs code l1 l0 p h1 h0 w1 w0 rest)
  = Ok (256 * byte_val w1 + byte_val w0, 256 * byte_val h1 + byte_val h0).
Proof.
  intros Hok Hsof. apply is_sof_byte in Hsof.
  rewrite <- !be16_arith by apply byte_val_range.
  unfold _jpeg_dimensions, jpeg_stream.
  apply (scan_segments code l1 l0 p h1 h0 w1 w0 rest segs [s0; s1]);
    [assumption..|].
  unfold enough. cbn [length app]. lia.
Qed.

(** The minimal single-frame stream of width 100 and height 50; and a
    640x300 progressive frame (code 0xC2) behind an APP0 segment with a
    two-byte payload and a Huffman-table segment (code 0xC4) with a
    three-byte payload, followed by two more bytes. *)
Lemma jpeg_dimensions_well_formed_witness :
  (Forall segment_ok [] /\
   (Byte.xc0 = Byte.xc0 \/ Byte.xc0 = Byte.xc1 \/ Byte.xc0 = Byte.xc2) /\
   _jpeg_dimensions minimal_jpeg = Ok (100, 50)) /\
  (Forall segment_ok
     [Segment Byte.xe0 Byte.x00 Byte.x04 [Byte.x4a; Byte.x46];
      Segment Byte.xc4 Byte.x00 Byte.x05 [Byte.x00; Byte.x01; Byte.x02]] /\
   (Byte.xc2 = Byte.xc0 \/ Byte.xc2 = Byte.xc1 \/ Byte.xc2 = Byte.xc2) /\
   _jpeg_dimensions
     [Byte.xff; Byte.xd8;
      Byte.xff; Byte.xe0; Byte.x00; Byte.x04; Byte.x4a; Byte.x46;
      Byte.xff; Byte.xc4; Byte.x00; Byte.x05; Byte.x00; Byte.x01; Byte.x02;
      Byte.xff; Byte.xc2; Byte.x00; Byte.x11; Byte.x08;
      Byte.x01; Byte.x2c; Byte.x02; Byte.x80;
      Byte.x03; Byte.x01]
   = Ok (640, 300)).
Proof.
  assert (Hsegs : Forall segment_ok
            [Segment Byte.xe0 Byte.x00 Byte.x04 [Byte.x4a; Byte.x46];
             Segment Byte.xc4 Byte.x00 Byte.x05
               [Byte.x00; Byte.x01; Byte.x02]]).
  { repeat constructor; discriminate. }
  split.
  - split; [constructor|]. split; [left; reflexivity|].
    exact (jpeg_dimensions_well_formed Byte.xff Byte.xd8 [] Byte.xc0
             Byte.x00 Byte.x0b Byte.x08 Byte.x00 Byte.x32 Byte.x00 Byte.x64 []
             (List.Forall_nil _) (or_introl eq_refl)).
  - split; [exact Hsegs|]. split; [right; right; reflexivity|].
    exact (jpeg_dimensions_well_formed Byte.xff Byte.xd8
             [Segment Byte.xe0 Byte.x00 Byte.x04 [Byte.x4a; Byte.x46];
              Segment Byte.xc4 Byte.x00 Byte.x05
                [Byte.x00; Byte.x01; Byte.x02]]
             Byte.xc2 Byte.x00 Byte.x11 Byte.x08
             Byte.x01 Byte.x2c Byte.x02 Byte.x80 [Byte.x03; Byte.x01]
             Hsegs (or_intror (or_intror eq_refl))).
Defined.

(** A stream with an APP0 and a comment segment in front of the frame. *)
Example jpeg_dimensions_with_metadata :
  _jpeg_dimensions
    (jpeg_stream Byte.xff Byte.xd8
       [Segment Byte.xe0 Byte.x00 Byte.x04 [Byte.x4a; Byte.x46];
        Segment Byte.xfe Byte.x00 Byte.x02 []]
       Byte.xc2 Byte.x00 Byte.x11 Byte.x08 Byte.x01 Byte.x2c Byte.x02 Byte.x80
       [Byte.x03; Byte.x01])
  = Ok (640, 300).
Proof. vm_compute. reflexivity. Qed.

(** C7, as the code has it. The parser fails, with the [ValueError] raised
    after the loop, exactly when the scan reaches a cursor position at
    which fewer than nine bytes are left ([i >= len(data) - 8]) or at which
    the byte is not 0xFF; in those cases it returns no dimensions. *)
Theorem jpeg_dimensions_fails_iff (data : bytes) :
  (_jpeg_dimensions data = Raise parse_failure <->
   exists i, cursor data i /\ stops_at data i) /\
  ((exists i, cursor data i /\ stops_at data i) ->
   forall w h, _jpeg_dimensions data <> Ok (w, h)).
Proof.
  assert (Hback : (exists i, cursor data i /\ stops_at data i) ->
                  _jpeg_dimensions data = Raise parse_failure).
  { intros (i & Hc & Hst).
    destruct (scan_through data i Hc) as (fuel & Hen & ->).
    apply scan_stops; assumption. }
  split; [split|].
  - intros Hr. unfold _jpeg_dimensions in Hr.
    eapply scan_raise_stops; [apply cursor_start|apply enough_start|exact Hr].
  - exact Hback.
  - intros Hex w h. rewrite (Hback Hex). discriminate.
Qed.

(** C7, as stated, fails on a six-byte stream: the scan stops at cursor 2,
    inside the buffer and on a 0xFF byte, because fewer than nine bytes
    are left. *)
Lemma jpeg_dimensions_fails_inside_buffer :
  ~ (forall data,
       _jpeg_dimensions data = Raise parse_failure <->
       exists i, cursor data i /\ past_end_or_bad_prefix data i).
Proof.
  intros H.
  destruct (proj1 (H truncated_jpeg)) as (i & Hc & Hst).
  { vm_compute. reflexivity. }
  assert (Hi : i = 2).
  { destruct Hc as [|j m l1 l0 Hc Hg _ _ _ _ _]; [reflexivity|].
    apply cursor_lower_bound in Hc. cbn [truncated_jpeg length] in Hg. lia. }
  subst i. destruct Hst as [Hlen|(b & Hb & Hne)].
  - cbn [truncated_jpeg length] in Hlen. lia.
  - vm_compute in Hb. injection Hb as <-. apply Hne. reflexivity.
Qed.

(** C8, as the code has it. Whatever the parser returns is a pair of
    16-bit unsigned values: each lies between 0 and 65535. *)
Theorem jpeg_dimensions_range (data : bytes) (w h : Z) :
  _jpeg_dimensions data = Ok (w, h) ->
  0 <= w < 65536 /\ 0 <= h < 65536.
Proof.
  unfold _jpeg_dimensions.
  generalize (enough_start data).
  assert (H2 : 0 <= 2) by lia. revert H2.
  generalize (S (length data)) as fuel. generalize 2 as i.
  intros i fuel. revert i.
  induction fuel as [|fuel IH]; intros i Hi Hen Hr.
  { discriminate. }
  destruct (iteration_cases data i Hi)
    as [Hge|b Hg Hb Hne|m h1 h0 w1 w0 Hg Hb Hm Hs H5 H6 H7 H8
        |m l1 l0 Hg Hb Hm Hs H2 H3].
  - rewrite scan_exhausted in Hr by assumption. discriminate.
  - rewrite (scan_break fuel data i b) in Hr by assumption. discriminate.
  - rewrite (scan_frame fuel data i m h1 h0 w1 w0) in Hr by assumption.
    injection Hr as <- <-.
    split; apply be16_range; eapply index_value_range; eassumption.
  - rewrite (scan_skip fuel data i m l1 l0) in Hr by assumption.
    apply (IH (i + (2 + be16 l1 l0))).
    + pose proof (skip_advances data i l1 l0 H2 H3). lia.
    + eapply enough_skip; eassumption.
    + exact Hr.
Qed.

Lemma jpeg_dimensions_range_witness :
  _jpeg_dimensions minimal_jpeg = Ok (100, 50) /\
  (0 <= 100 < 65536 /\ 0 <= 50 < 65536).
Proof.
  assert (H : _jpeg_dimensions minimal_jpeg = Ok (100, 50))
    by (vm_compute; reflexivity).
  split; [exact H|].
  exact (jpeg_dimensions_range minimal_jpeg 100 50 H).
Defined.

(** C8, as stated, fails: a frame header with zero in both fields is
    returned as (0, 0). *)
Lemma jpeg_dimensions_zero_frame :
  _jpeg_dimensions zero_frame_jpeg = Ok (0, 0) /\
  ~ (forall data w h,
       _jpeg_dimensions data = Ok (w, h) -> 0 < w /\ 0 < h).
Proof.
  assert (H : _jpeg_dimensions zero_frame_jpeg = Ok (0, 0))
    by (vm_compute; reflexivity).
  split; [exact H|].
  intros Hall. destruct (Hall _ _ _ H) as [Hw _]. lia.
Qed.

(** C10. At every cursor position that passes the loop guard, the nine
    offsets [i .. i + 8] are inside the buffer, so every read of the body
    succeeds; and for every byte sequence the call ends either with a pair
    or with the [ValueError] after the loop, never with [IndexError]. *)
Theorem jpeg_dimensions_in_bounds (data : bytes) :
  (forall i k, cursor data i -> i < Z.of_nat (length data) - 8 ->
     0 <= k <= 8 ->
     0 <= i + k < Z.of_nat (length data) /\
     exists v, index data (i + k) = Ok v) /\
  ((exists w h, _jpeg_dimensions data = Ok (w, h)) \/
   _jpeg_dimensions data = Raise parse_failure).
Proof.
  split.
  - intros i k Hc Hg Hk.
    pose proof (cursor_lower_bound data i Hc) as Hi.
    split; [lia|].
    destruct (guarded_read data i k) as (v & Hv & _); [lia..|].
    exists v. exact Hv.
  - apply scan_total; [lia|apply enough_start].
Qed.

Example jpeg_dimensions_empty : _jpeg_dimensions [] = Raise parse_failure.
Proof. reflexivity. Qed.

Example jpeg_dimensions_truncated :
  _jpeg_dimensions truncated_jpeg = Raise parse_failure.
Proof. vm_compute. reflexivity. Qed.

(* ================================================================== *)
(** * Properties of [_build_jpeg_pdf] *)

Section Assembler.

(** *** Lists, ranges and indexing *)

Lemma getitem_nth {A : Type} (l : list A) (i : Z) (a : A) :
  0 <= i -> nth_error l (Z.to_nat i) = Some a -> getitem l i = Ok a.
Proof.
  intros Hi Hn.
  assert (Hlt : (Z.to_nat i < length l)%nat)
    by (apply nth_error_Some; congruence).
  unfold getitem.
  destruct (Z.ltb_spec i 0) as [?|_]; [lia|].
  destruct (Z.leb_spec 0 i) as [_|?]; [|lia].
  destruct (Z.ltb_spec i (Z.of_nat (length l))) as [_|?]; [|lia].
  cbn [andb]. rewrite Hn. reflexivity.
Qed.

Lemma length_range (a b : Z) : length (range a b) = Z.to_nat (b - a).
Proof. unfold range. rewrite length_map, length_seq. reflexivity. Qed.

Lemma nth_range (a b : Z) (k : nat) :
  (k < Z.to_nat (b - a))%nat ->
  nth_error (range a b) k = Some (a + Z.of_nat k).
Proof.
  intros Hk. unfold range.
  rewrite nth_error_map, nth_error_seq.
  destruct (Nat.ltb_spec k (Z.to_nat (b - a))); [reflexivity|lia].
Qed.

(** [[f(i) for i in range(n)][i]] is [f(i)] for an index in range. *)
Lemma getitem_comprehension (f : Z -> Z) (n i : Z) :
  0 <= i < n -> getitem (map f (range 0 n)) i = Ok (f i).
Proof.
  intros Hi. apply getitem_nth; [lia|].
  rewrite nth_error_map, nth_range by lia.
  cbn. f_equal. f_equal. lia.
Qed.

Lemma range_cons (a b : Z) : a < b -> range a b = a :: range (a + 1) b.
Proof.
  intros H. unfold range.
  replace (Z.to_nat (b - a)) with (S (Z.to_nat (b - (a + 1)))) by lia.
  cbn [seq map]. f_equal; [lia|].
  rewrite <- seq_shift, map_map. apply map_ext. intros k. lia.
Qed.

Lemma range_empty (a b : Z) : b <= a -> range a b = [].
Proof.
  intros H. unfold range. replace (Z.to_nat (b - a)) with 0%nat by lia.
  reflexivity.
Qed.

Lemma in_range (a b x : Z) : x ∈ range a b <-> a <= x < b.
Proof.
  rewrite list_elem_of_In. unfold range. rewrite in_map_iff. split.
  - intros (k & <- & Hk). apply in_seq in Hk. lia.
  - intros Hx. exists (Z.to_nat (x - a)). split; [lia|].
    apply in_seq. lia.
Qed.

Lemma NoDup_range (a b : Z) : NoDup (range a b).
Proof.
  unfold range.
  assert (Hinj : Inj eq eq (fun k : nat => a + Z.of_nat k))
    by (intros x y; lia).
  apply (NoDup_fmap_2 (fun k => a + Z.of_nat k)), NoDup_seq.
Qed.

(** *** Writing objects *)

Lemma add_obj_buf num data st :
  buf (add_obj num data st) = buf st ++ obj_bytes num data.
Proof.
  unfold add_obj, obj_bytes. cbn [buf]. rewrite <- !app_assoc. reflexivity.
Qed.

Lemma add_obj_offsets num data st :
  offsets (add_obj num data st)
  = <[num := Z.of_nat (length (buf st))]> (offsets st).
Proof. reflexivity. Qed.

Lemma write_all_cons o objs st :
  write_all (o :: objs) st = write_all objs (add_obj (fst o) (snd o) st).
Proof. reflexivity. Qed.

Lemma write_all_app objs1 objs2 st :
  write_all (objs1 ++ objs2) st = write_all objs2 (write_all objs1 st).
Proof. unfold write_all. apply fold_left_app. Qed.

Lemma objs_bytes_app objs1 objs2 :
  objs_bytes (objs1 ++ objs2) = objs_bytes objs1 ++ objs_bytes objs2.
Proof. unfold objs_bytes. rewrite map_app, concat_app. reflexivity. Qed.

Lemma write_all_buf objs : forall st,
  buf (write_all objs st) = buf st ++ objs_bytes objs.
Proof.
  induction objs as [|o objs IH]; intros st.
  - cbn. rewrite app_nil_r. reflexivity.
  - rewrite write_all_cons, IH, add_obj_buf.
    unfold objs_bytes. cbn [map concat]. rewrite <- app_assoc. reflexivity.
Qed.

Lemma write_all_offsets_other objs num : forall st,
  num ∉ map fst objs ->
  offsets (write_all objs st) !! num = offsets st !! num.
Proof.
  induction objs as [|o objs IH]; intros st Hnot; [reflexivity|].
  cbn [map] in Hnot. apply not_elem_of_cons in Hnot as [Hne Hnot].
  rewrite write_all_cons, IH by exact Hnot.
  rewrite add_obj_offsets. apply lookup_insert_ne. congruence.
Qed.

Lemma write_all_offsets_at before num data after st :
  num ∉ map fst after ->
  offsets (write_all (before ++ (num, data) :: after) st) !! num
  = Some (Z.of_nat (length (buf st ++ objs_bytes before))).
Proof.
  intros Hnot.
  rewrite write_all_app, write_all_cons.
  rewrite write_all_offsets_other by exact Hnot.
  cbn [fst snd]. rewrite add_obj_offsets, lookup_insert_eq, write_all_buf.
  reflexivity.
Qed.

Lemma write_all_dom objs num : forall st,
  is_Some (offsets (write_all objs st) !! num) <->
  is_Some (offsets st !! num) \/ num ∈ map fst objs.
Proof.
  induction objs as [|o objs IH]; intros st.
  - cbn. rewrite elem_of_nil. tauto.
  - rewrite write_all_cons, IH, add_obj_offsets. cbn [map].
    rewrite elem_of_cons, lookup_insert_is_Some. 
    destruct (decide (fst o = num)) as [->|Hne]; [tauto|].
    split; [intros [[?|[_ ?]]|?]|intros [?|[?|?]]]; try tauto; congruence.
Qed.

(** *** The loop over the pages, and everything before it *)

Lemma emit_pages_write (n : Z) (pages : list page) : forall i st,
  0 <= i -> i + Z.of_nat (length pages) <= n ->
  emit_pages (map (fun i => 3 + 3 * i) (range 0 n))
             (map (fun i => 4 + 3 * i) (range 0 n))
             (map (fun i => 5 + 3 * i) (range 0 n)) i pages st
  = Ok (write_all (pages_objects i pages) st).
Proof.
  induction pages as [|[[jpeg w] h] pages IH]; intros i st Hi Hn.
  - reflexivity.
  - cbn [length] in Hn. cbn [emit_pages].
    rewrite !getitem_comprehension by lia. cbn.
    rewrite IH by lia. reflexivity.
Qed.

Lemma emit_objects_write (pages : list page) :
  emit_objects pages
  = Ok (write_all (document_objects pages) (State pdf_header ∅)).
Proof.
  unfold emit_objects. rewrite emit_pages_write by lia. reflexivity.
Qed.

Lemma pages_objects_ids (pages : list page) : forall i,
  map fst (pages_objects i pages)
  = range (3 + 3 * i) (3 + 3 * (i + Z.of_nat (length pages))).
Proof.
  induction pages as [|[[jpeg w] h] pages IH]; intros i.
  - cbn. rewrite range_empty by lia. reflexivity.
  - cbn [pages_objects page_objects length app map fst].
    rewrite IH.
    rewrite (range_cons (3 + 3 * i)) by lia.
    rewrite (range_cons (3 + 3 * i + 1)) by lia.
    rewrite (range_cons (3 + 3 * i + 1 + 1)) by lia.
    repeat (f_equal; try lia).
Qed.

(** The objects are numbered 1, 2, ..., 2 + 3n, in the order written. *)
Lemma document_objects_ids (pages : list page) :
  map fst (document_objects pages)
  = range 1 (3 + 3 * Z.of_nat (length pages)).
Proof.
  unfold document_objects. cbn [map fst].
  rewrite pages_objects_ids.
  rewrite (range_cons 1) by lia. rewrite (range_cons (1 + 1)) by lia.
  unfold catalog_num, pages_num. repeat (f_equal; try lia).
Qed.

(** *** The object table of a finished body *)

Lemma offsets_defined (pages : list page) (num : Z) :
  is_Some (offsets (write_all (document_objects pages) (State pdf_header ∅))
             !! num)
  <-> 1 <= num <= 2 + 3 * Z.of_nat (length pages).
Proof.
  rewrite write_all_dom, document_objects_ids, in_range. cbn [offsets].
  rewrite lookup_empty. split.
  - intros [[? [=]]|?]. lia.
  - intros ?. right. lia.
Qed.

Lemma fold_left_max_ge (ks : list Z) : forall k, k <= fold_left Z.max ks k.
Proof.
  induction ks as [|x ks IH]; intros k; cbn [fold_left]; [lia|].
  specialize (IH (Z.max k x)). lia.
Qed.

Lemma fold_left_max_in (ks : list Z) : forall k,
  fold_left Z.max ks k ∈ k :: ks.
Proof.
  induction ks as [|x ks IH]; intros k; cbn [fold_left].
  - apply list_elem_of_here.
  - specialize (IH (Z.max k x)).
    apply elem_of_cons in IH as [->|IH].
    + destruct (Z.max_spec k x) as [[_ ->]|[_ ->]].
      * apply list_elem_of_further, list_elem_of_here.
      * apply list_elem_of_here.
    + apply list_elem_of_further, list_elem_of_further, IH.
Qed.

Lemma fold_left_max_upper (ks : list Z) : forall k x,
  x ∈ k :: ks -> x <= fold_left Z.max ks k.
Proof.
  induction ks as [|y ks IH]; intros k x Hx; cbn [fold_left].
  - apply elem_of_cons in Hx as [->|Hx]; [lia|]. inversion Hx.
  - apply elem_of_cons in Hx as [->|Hx].
    + pose proof (fold_left_max_ge ks (Z.max k y)). lia.
    + apply elem_of_cons in Hx as [->|Hx].
      * pose proof (fold_left_max_ge ks (Z.max k y)). lia.
      * apply IH. apply list_elem_of_further, Hx.
Qed.

(** [max] returns the greatest element, whatever the order. *)
Lemma max_of_greatest (keys : list Z) (m : Z) :
  m ∈ keys -> (forall k, k ∈ keys -> k <= m) -> max_of keys = Ok m.
Proof.
  intros Hm Hmax. unfold max_of.
  destruct keys as [|k ks]; [inversion Hm|].
  f_equal. apply Z.le_antisymm.
  - apply Hmax, fold_left_max_in.
  - apply fold_left_max_upper, Hm.
Qed.

Lemma max_of_document (order : key_order) (pages : list page) :
  enumerates order ->
  max_of (order (offsets (write_all (document_objects pages)
                            (State pdf_header ∅))))
  = Ok (2 + 3 * Z.of_nat (length pages)).
Proof.
  intros Horder. apply max_of_greatest.
  - rewrite (Horder _). apply elem_of_elements, elem_of_dom, offsets_defined. lia.
  - intros k Hk. rewrite (Horder _) in Hk.
    apply elem_of_elements, elem_of_dom, offsets_defined in Hk. lia.
Qed.

Lemma enumerates_default : enumerates default_order.
Proof. intros d. reflexivity. Qed.

Lemma max_key_document (pages : list page) :
  max_key (offsets (write_all (document_objects pages) (State pdf_header ∅)))
  = Ok (2 + 3 * Z.of_nat (length pages)).
Proof. apply max_of_document, enumerates_default. Qed.

(** *** The cross-reference section and the trailer *)

Lemma fold_left_append {A : Type} (f : A -> bytes) (l : list A) : forall b,
  fold_left (fun b x => b ++ f x) l b = b ++ concat (map f l).
Proof.
  induction l as [|x l IH]; intros b; cbn [fold_left map concat].
  - rewrite app_nil_r. reflexivity.
  - rewrite IH, <- app_assoc. reflexivity.
Qed.

Lemma finish_layout (order : key_order) (st : state) (max_num : Z) :
  max_of (order (offsets st)) = Ok max_num ->
  finish_in order st
  = Ok (buf st ++ xref_section (offsets st) max_num
        ++ trailer (max_num + 1)
        ++ startxref (Z.of_nat (length (buf st)))).
Proof.
  intros Hmax. unfold finish_in. rewrite Hmax.
  unfold mbind, res_bind. cbv beta zeta.
  rewrite fold_left_append. unfold xref_section, xref_table.
  cbn [concat]. rewrite <- !app_assoc. reflexivity.
Qed.

(** A run in closed form: the body written object by object, then the
    cross-reference section, the trailer and the pointer. *)
Lemma run_layout (order : key_order) (pages : list page) :
  enumerates order ->
  let st := write_all (document_objects pages) (State pdf_header ∅) in
  let n := Z.of_nat (length pages) in
  run order pages
  = Ok (buf st ++ xref_section (offsets st) (2 + 3 * n)
        ++ trailer (3 * n + 3)
        ++ startxref (Z.of_nat (length (buf st)))).
Proof.
  intros Horder st n.
  unfold run. rewrite emit_objects_write.
  unfold mbind, res_bind at 1.
  rewrite (finish_layout _ _ _ (max_of_document order pages Horder)).
  subst st n.
  replace (2 + 3 * Z.of_nat (length pages) + 1)
    with (3 * Z.of_nat (length pages) + 3) by lia.
  reflexivity.
Qed.

Lemma build_layout (pages : list page) :
  let st := write_all (document_objects pages) (State pdf_header ∅) in
  let n := Z.of_nat (length pages) in
  emit_objects pages = Ok st /\
  max_key (offsets st) = Ok (2 + 3 * n) /\
  _build_jpeg_pdf pages
  = Ok (buf st ++ xref_section (offsets st) (2 + 3 * n)
        ++ trailer (3 * n + 3)
        ++ startxref (Z.of_nat (length (buf st)))).
Proof.
  intros st n. split; [apply emit_objects_write|].
  split; [apply max_key_document|].
  apply run_layout, enumerates_default.
Qed.

(** An object of the document is found where the table says. *)
Lemma object_located (pages : list page) before num data after :
  document_objects pages = before ++ (num, data) :: after ->
  let st := write_all (document_objects pages) (State pdf_header ∅) in
  exists off,
    offsets st !! num = Some off /\
    forall rest, object_at (buf st ++ rest) off num data.
Proof.
  intros Hsplit st.
  assert (Hnot : num ∉ map fst after).
  { pose proof (NoDup_range 1 (3 + 3 * Z.of_nat (length pages))) as Hnd.
    rewrite <- document_objects_ids, Hsplit, map_app in Hnd. cbn [map fst] in Hnd.
    apply NoDup_app in Hnd as (_ & _ & Hnd).
    apply NoDup_cons in Hnd as [Hnd _]. exact Hnd. }
  exists (Z.of_nat (length (pdf_header ++ objs_bytes before))). split.
  - subst st. rewrite Hsplit.
    exact (write_all_offsets_at before num data after (State pdf_header ∅) Hnot).
  - intros rest. subst st.
    exists (pdf_header ++ objs_bytes before), (objs_bytes after ++ rest).
    split; [|reflexivity].
    rewrite write_all_buf, Hsplit, objs_bytes_app. cbn [buf].
    unfold objs_bytes at 2. cbn [map concat fst snd].
    fold (objs_bytes after). rewrite <- !app_assoc. reflexivity.
Qed.

Lemma pages_objects_split (ps1 : list page) (p : page) (ps2 : list page) :
  forall i,
  pages_objects i (ps1 ++ p :: ps2)
  = pages_objects i ps1
    ++ page_objects (i + Z.of_nat (length ps1)) p
    ++ pages_objects (i + Z.of_nat (length ps1) + 1) ps2.
Proof.
  induction ps1 as [|q ps1 IH]; intros i.
  - cbn [app pages_objects length]. rewrite Z.add_0_r. reflexivity.
  - cbn [app pages_objects]. rewrite IH, <- app_assoc.
    replace (i + 1 + Z.of_nat (length ps1))
      with (i + Z.of_nat (length (q :: ps1))) by (cbn [length]; lia).
    reflexivity.
Qed.

(** The three objects of the page with index [i] are where the table
    says, under the identifiers of the layout formula. *)
Lemma page_located (pages : list page) (i : nat) (jpeg : bytes) (w h : Z) :
  pages !! i = Some (jpeg, w, h) ->
  let st := write_all (document_objects pages) (State pdf_header ∅) in
  let k := Z.of_nat i in
  exists o_img o_cs o_pg,
    (offsets st !! (3 + 3 * k) = Some o_img /\
     forall rest, object_at (buf st ++ rest) o_img (3 + 3 * k)
                    (image_xobject jpeg w h)) /\
    (offsets st !! (4 + 3 * k) = Some o_cs /\
     forall rest, object_at (buf st ++ rest) o_cs (4 + 3 * k)
                    (content_stream w h)) /\
    (offsets st !! (5 + 3 * k) = Some o_pg /\
     forall rest, object_at (buf st ++ rest) o_pg (5 + 3 * k)
                    (page_dict w h (3 + 3 * k) (4 + 3 * k))).
Proof.
  intros Hi st k.
  pose proof (take_drop_middle pages i _ Hi) as Hpages.
  pose proof (lookup_lt_Some _ _ _ Hi) as Hlt.
  set (ps1 := take i pages) in *. set (ps2 := drop (S i) pages) in *.
  assert (Hlen : Z.of_nat (length ps1) = k).
  { subst ps1 k. rewrite length_take.
    f_equal. apply Nat.min_l, Nat.lt_le_incl, Hlt. }
  set (cat := (catalog_num, catalog_dict)).
  set (tree := (pages_num,
                pages_dict (map (fun i => 5 + 3 * i)
                              (range 0 (Z.of_nat (length pages))))
                  (Z.of_nat (length pages)))).
  set (o1 := (3 + 3 * k, image_xobject jpeg w h)).
  set (o2 := (4 + 3 * k, content_stream w h)).
  set (o3 := (5 + 3 * k, page_dict w h (3 + 3 * k) (4 + 3 * k))).
  set (tl := pages_objects (0 + k + 1) ps2).
  set (hd := cat :: tree :: pages_objects 0 ps1).
  assert (Hobjs : document_objects pages = hd ++ o1 :: o2 :: o3 :: tl).
  { assert (Hpo : pages_objects 0 pages
                    = pages_objects 0 ps1 ++ o1 :: o2 :: o3 :: tl).
    { rewrite <- Hpages at 1. rewrite pages_objects_split, Hlen.
      cbn [page_objects]. rewrite Z.add_0_l. reflexivity. }
    unfold document_objects. rewrite Hpo. reflexivity. }
  destruct (object_located pages hd _ _ (o2 :: o3 :: tl) Hobjs)
    as (o_img & Himg & Himg').
  destruct (object_located pages (hd ++ [o1]) (4 + 3 * k)
              (content_stream w h) (o3 :: tl)) as (o_cs & Hcs & Hcs').
  { rewrite Hobjs, <- app_assoc. reflexivity. }
  destruct (object_located pages (hd ++ [o1; o2]) (5 + 3 * k)
              (page_dict w h (3 + 3 * k) (4 + 3 * k)) tl)
    as (o_pg & Hpg & Hpg').
  { rewrite Hobjs, <- app_assoc. reflexivity. }
  exists o_img, o_cs, o_pg. repeat split; assumption.
Qed.

(** The table has exactly [2 + 3n] keys. *)
Lemma offsets_size (pages : list page) :
  size (offsets (write_all (document_objects pages) (State pdf_header ∅)))
  = Z.to_nat (2 + 3 * Z.of_nat (length pages)).
Proof.
  set (st := write_all _ _).
  assert (Hdom : dom (offsets st)
                 = list_to_set (range 1 (3 + 3 * Z.of_nat (length pages)))).
  { apply set_eq. intros num.
    rewrite elem_of_dom, elem_of_list_to_set, in_range.
    subst st. rewrite offsets_defined. split; lia. }
  rewrite <- size_dom, Hdom, size_list_to_set by apply NoDup_range.
  rewrite length_range. lia.
Qed.

(** *** Decimal text *)

Lemma parse_int_str (n : Z) : parse_int (str n) = Some n.
Proof.
  unfold parse_int, str, encode.
  rewrite string_of_list_byte_of_string.
  rewrite NilZero.isi.
  - rewrite DecimalZ.of_to. reflexivity.
  - destruct n as [|p|p]; cbn [Z.to_int]; try discriminate.
    intros [= H]. exact (Unsigned.to_uint_nonnil p H).
  - destruct n as [|p|p]; cbn [Z.to_int]; try discriminate.
    intros [= H]. exact (Unsigned.to_uint_nonnil p H).
Qed.

End Assembler.

Lemma nth_error_lookup {A : Type} (l : list A) : forall i : nat,
  nth_error l i = l !! i.
Proof.
  induction l as [|x l IH]; intros [|i]; cbn; try reflexivity. apply IH.
Qed.

Lemma xref_table_length (offs : gmap Z Z) (max_num : Z) :
  0 <= max_num -> length (xref_table offs max_num) = Z.to_nat (max_num + 1).
Proof.
  intros H. unfold xref_table. cbn [length].
  rewrite length_map, length_range. lia.
Qed.

Lemma xref_table_lookup (offs : gmap Z Z) (max_num num : Z) :
  1 <= num <= max_num ->
  xref_table offs max_num !! Z.to_nat num = Some (xref_entry offs num).
Proof.
  intros H. unfold xref_table.
  replace (Z.to_nat num) with (S (Z.to_nat (num - 1))) by lia.
  rewrite <- nth_error_lookup. cbn [nth_error].
  rewrite nth_error_map, nth_range by lia.
  cbn [option_map]. do 2 f_equal. lia.
Qed.

Lemma trailer_text (size : Z) :
  trailer size
  = lines ["trailer"; "<<"]%string
    ++ (encode "/Size " ++ str size ++ nl)
    ++ lines ["/Root 1 0 R"; ">>"]%string.
Proof.
  unfold trailer, lines, catalog_num.
  change (str 1) with (encode "1").
  cbn -[str]. rewrite <- ?app_assoc. reflexivity.
Qed.

(** C1, as the code has it. The builder has no check for an empty input
    and raises nothing: for every sequence of pages it returns a buffer.
    The empty case is stopped one level up: whenever the loop of
    [combine_via_sips] ends with the pages [pages], the call returns
    [False] and writes nothing if there is no page; otherwise it hands the
    builder's buffer to the file system and returns [True] exactly when
    writing it raised nothing. *)
Theorem build_jpeg_pdf_total (pages : list page) :
  exists b,
    _build_jpeg_pdf pages = Ok b /\
    forall (sips : text -> text -> conversion)
           (store : text -> bytes -> bool)
           (png_files : list text) (output_path : text),
      sips_loop sips png_files [] = Some pages ->
      combine_via_sips sips store png_files output_path
      = match pages with
        | [] => (false, None)
        | _ :: _ =>
            if store output_path b then (true, Some b) else (false, None)
        end.
Proof.
  destruct (build_layout pages) as (_ & _ & Hb).
  eexists. split; [exact Hb|].
  intros sips store png_files output_path Hloop.
  unfold combine_via_sips. rewrite Hloop.
  destruct pages as [|p pages]; [reflexivity|].
  rewrite Hb. reflexivity.
Qed.

(** One file that [sips] does not convert leaves the loop without a page:
    the builder would return the empty document, and the call returns
    [False] without writing.  One file converted to the minimal stream
    gives one page, and with a write that fails the call returns [False]
    although the builder returned a buffer. *)
Lemma build_jpeg_pdf_total_witness :
  (sips_loop (fun _ _ => NotConverted) [chars "a.png"] [] = Some [] /\
   combine_via_sips (fun _ _ => NotConverted) (fun _ _ => true)
     [chars "a.png"] (chars "out.pdf")
   = (false, None)) /\
  (sips_loop (fun _ _ => Converted minimal_jpeg) [chars "a.png"] []
   = Some [(minimal_jpeg, 100, 50)] /\
   exists b,
     _build_jpeg_pdf [(minimal_jpeg, 100, 50)] = Ok b /\
     combine_via_sips (fun _ _ => Converted minimal_jpeg) (fun _ _ => true)
       [chars "a.png"] (chars "out.pdf")
     = (true, Some b) /\
     combine_via_sips (fun _ _ => Converted minimal_jpeg) (fun _ _ => false)
       [chars "a.png"] (chars "out.pdf")
     = (false, None)).
Proof.
  assert (H0 : sips_loop (fun _ _ => NotConverted) [chars "a.png"] []
               = Some []) by reflexivity.
  assert (H1 : sips_loop (fun _ _ => Converted minimal_jpeg)
                 [chars "a.png"] []
               = Some [(minimal_jpeg, 100, 50)])
    by (vm_compute; reflexivity).
  split.
  - split; [exact H0|].
    destruct (build_jpeg_pdf_total []) as (b & _ & Hc).
    exact (Hc _ (fun _ _ => true) _ (chars "out.pdf") H0).
  - split; [exact H1|].
    destruct (build_jpeg_pdf_total [(minimal_jpeg, 100, 50)])
      as (b & Hb & Hc).
    exists b. split; [exact Hb|]. split.
    + exact (Hc _ (fun _ _ => true) _ (chars "out.pdf") H1).
    + exact (Hc _ (fun _ _ => false) _ (chars "out.pdf") H1).
Defined.

(** C1, as stated, fails: on the empty sequence the builder returns a
    buffer (a catalog and a page tree without kids) and raises nothing. *)
Lemma build_jpeg_pdf_empty_returns :
  _build_jpeg_pdf [] = Ok empty_document /\
  ~ (exists e, _build_jpeg_pdf [] = Raise e).
Proof.
  assert (H : _build_jpeg_pdf [] = Ok empty_document)
    by (vm_compute; reflexivity).
  split; [exact H|]. intros [e He]. rewrite H in He. discriminate.
Qed.

(** C2. For a list of [n] pages the catalog is object 1, the page tree is
    object 2, and the page with zero-based index [i] has its image
    resource as object [3 + 3i], its content stream as object [4 + 3i] and
    its page dictionary as object [5 + 3i]; the object table holds exactly
    the identifiers 1 .. 2 + 3n, and the trailer declares [/Size 3n + 3]. *)
Theorem layout_policy (pages : list page) :
  let n := Z.of_nat (length pages) in
  exists st out body,
    emit_objects pages = Ok st /\
    _build_jpeg_pdf pages = Ok out /\
    (exists off, offsets st !! 1 = Some off /\
                 object_at out off 1 catalog_dict) /\
    (exists off, offsets st !! 2 = Some off /\
                 object_at out off 2
                   (pages_dict (map (fun i => 5 + 3 * i) (range 0 n)) n)) /\
    (forall (i : nat) jpeg w h,
       pages !! i = Some (jpeg, w, h) ->
       let k := Z.of_nat i in
       exists o_img o_cs o_pg,
         (offsets st !! (3 + 3 * k) = Some o_img /\
          object_at out o_img (3 + 3 * k) (image_xobject jpeg w h)) /\
         (offsets st !! (4 + 3 * k) = Some o_cs /\
          object_at out o_cs (4 + 3 * k) (content_stream w h)) /\
         (offsets st !! (5 + 3 * k) = Some o_pg /\
          object_at out o_pg (5 + 3 * k)
            (page_dict w h (3 + 3 * k) (4 + 3 * k)))) /\
    (forall num, is_Some (offsets st !! num) <-> 1 <= num <= 2 + 3 * n) /\
    size (offsets st) = Z.to_nat (2 + 3 * n) /\
    max_key (offsets st) = Ok (2 + 3 * n) /\
    out = body
          ++ lines ["trailer"; "<<"]%string
          ++ (encode "/Size " ++ str (3 * n + 3) ++ nl)
          ++ lines ["/Root 1 0 R"; ">>"]%string
          ++ startxref (Z.of_nat (length (buf st))).
Proof.
  intros n.
  destruct (build_layout pages) as (Hst & Hmax & Hout).
  set (st := write_all (document_objects pages) (State pdf_header ∅)) in *.
  eexists st, _, (buf st ++ xref_section (offsets st) (2 + 3 * n)).
  split; [exact Hst|]. split; [exact Hout|].
  split; [|split; [|split; [|split; [|split; [|split]]]]].
  - destruct (object_located pages [] 1 catalog_dict
                (tl (document_objects pages)) eq_refl) as (off & Ho & Hat).
    exists off. split; [exact Ho|apply Hat].
  - destruct (object_located pages [(catalog_num, catalog_dict)] 2
                (pages_dict (map (fun i => 5 + 3 * i) (range 0 n)) n)
                (pages_objects 0 pages) eq_refl) as (off & Ho & Hat).
    exists off. split; [exact Ho|apply Hat].
  - intros i jpeg w h Hi k.
    destruct (page_located pages i jpeg w h Hi)
      as (o1 & o2 & o3 & [H1 H1'] & [H2 H2'] & [H3 H3']).
    exists o1, o2, o3. repeat split; auto.
  - apply offsets_defined.
  - apply offsets_size.
  - exact Hmax.
  - rewrite trailer_text, <- !app_assoc. reflexivity.
Qed.

(** The layout example: three pages give identifiers up to 11, and the
    second page has its image, content stream and page dictionary as
    objects 6, 7 and 8. *)
Example layout_three_pages :
  exists st,
    emit_objects three_pages = Ok st /\
    max_key (offsets st) = Ok 11 /\
    map fst (page_objects 1 ([Byte.xff; Byte.xd8; Byte.xff], 20, 30))
    = [6; 7; 8] /\
    trailer (11 + 1)
    = lines ["trailer"; "<<"; "/Size 12"; "/Root 1 0 R"; ">>"]%string.
Proof.
  eexists. split; [apply emit_objects_write|].
  split; [apply (max_key_document three_pages)|].
  split; reflexivity.
Qed.

Lemma object_of_number (pages : list page) (num : Z) :
  1 <= num <= 2 + 3 * Z.of_nat (length pages) ->
  exists before data after,
    document_objects pages = before ++ (num, data) :: after.
Proof.
  intros Hnum.
  assert (Hin : num ∈ map fst (document_objects pages))
    by (rewrite document_objects_ids; apply in_range; lia).
  apply list_elem_of_fmap in Hin as ([num' data] & -> & Hin).
  apply list_elem_of_split in Hin as (before & after & ->).
  exists before, data, after. reflexivity.
Qed.

(** C3. The cross-reference table of the returned buffer is a list of
    [/Size] lines, one per identifier 0 .. [/Size - 1] in ascending order:
    line 0 is the free-list head, and line [num] carries the offset that
    the object table records for [num], which is where object [num]
    starts in the buffer.  Every identifier in the object table has its
    line, and every line from 1 on has an identifier in the table. *)
Theorem xref_table_complete (pages : list page) :
  exists st max_num out table,
    emit_objects pages = Ok st /\
    max_key (offsets st) = Ok max_num /\
    _build_jpeg_pdf pages = Ok out /\
    out = buf st
          ++ lines ["xref"]%string
          ++ (encode "0 " ++ str (max_num + 1) ++ nl)
          ++ concat table
          ++ trailer (max_num + 1)
          ++ startxref (Z.of_nat (length (buf st))) /\
    length table = Z.to_nat (max_num + 1) /\
    table !! 0%nat = Some (lines ["0000000000 65535 f "]%string) /\
    (forall num, 1 <= num <= max_num ->
       exists off data,
         offsets st !! num = Some off /\
         table !! Z.to_nat num
         = Some (fmt_010d off ++ encode " 00000 n " ++ nl) /\
         object_at out off num data) /\
    (forall num, is_Some (offsets st !! num) -> 1 <= num <= max_num).
Proof.
  destruct (build_layout pages) as (Hst & Hmax & Hout).
  set (st := write_all (document_objects pages) (State pdf_header ∅)) in *.
  set (m := 2 + 3 * Z.of_nat (length pages)) in *.
  exists st, m, (buf st ++ xref_section (offsets st) m
                 ++ trailer (m + 1) ++ startxref (Z.of_nat (length (buf st)))),
    (xref_table (offsets st) m).
  split; [exact Hst|]. split; [exact Hmax|].
  split; [|split; [|split; [|split; [|split]]]].
  - replace (m + 1) with (3 * Z.of_nat (length pages) + 3) by (subst m; lia).
    exact Hout.
  - unfold xref_section. rewrite <- !app_assoc. reflexivity.
  - apply xref_table_length. subst m. lia.
  - reflexivity.
  - intros num Hnum.
    destruct (object_of_number pages num Hnum) as (before & data & after & Hsplit).
    destruct (object_located pages before num data after Hsplit)
      as (off & Hoff & Hat).
    exists off, data. fold st in Hoff, Hat.
    split; [exact Hoff|]. split; [|apply Hat].
    rewrite xref_table_lookup by exact Hnum.
    unfold xref_entry. rewrite Hoff. reflexivity.
  - intros num Hnum. subst st m. apply offsets_defined in Hnum. exact Hnum.
Qed.

(** C4. The returned buffer is the body, then the [xref] keyword, and it
    ends with [startxref], a decimal number and the end-of-file marker;
    that number is the length of the body, the byte offset at which the
    [xref] keyword begins. *)
Theorem startxref_points_at_xref (pages : list page) :
  exists st out middle digits,
    emit_objects pages = Ok st /\
    _build_jpeg_pdf pages = Ok out /\
    out = buf st ++ lines ["xref"]%string ++ middle
          ++ lines ["startxref"]%string ++ digits ++ nl
          ++ lines ["%%EOF"]%string /\
    parse_int digits = Some (Z.of_nat (length (buf st))) /\
    keyword_at out (Z.of_nat (length (buf st))) (encode "xref").
Proof.
  destruct (build_layout pages) as (Hst & _ & Hout).
  set (st := write_all (document_objects pages) (State pdf_header ∅)) in *.
  set (n := Z.of_nat (length pages)) in *.
  set (middle := (encode "0 " ++ str (2 + 3 * n + 1) ++ nl)
                 ++ concat (xref_table (offsets st) (2 + 3 * n))
                 ++ trailer (3 * n + 3)).
  exists st, (buf st ++ lines ["xref"]%string ++ middle
              ++ lines ["startxref"]%string
              ++ str (Z.of_nat (length (buf st))) ++ nl
              ++ lines ["%%EOF"]%string),
    middle, (str (Z.of_nat (length (buf st)))).
  split; [exact Hst|]. split; [|split; [reflexivity|split]].
  - rewrite Hout. subst middle. unfold xref_section, startxref, lines.
    cbn [map concat]. rewrite <- !app_assoc. reflexivity.
  - apply parse_int_str.
  - eexists (buf st), _. split; [|reflexivity].
    unfold lines. cbn [map concat]. rewrite <- !app_assoc. reflexivity.
Qed.

(** C9. Two runs of the builder on the same pages return the same buffer,
    in whatever order each run enumerates the keys of its object table;
    nothing but the argument is read, and a buffer is always returned. *)
Theorem build_deterministic (order1 order2 : key_order) (pages : list page) :
  enumerates order1 -> enumerates order2 ->
  run order1 pages = run order2 pages /\
  exists b, run order1 pages = Ok b /\ _build_jpeg_pdf pages = Ok b.
Proof.
  intros H1 H2.
  rewrite (run_layout order1 pages H1), (run_layout order2 pages H2).
  split; [reflexivity|].
  eexists. split; [reflexivity|].
  apply run_layout, enumerates_default.
Qed.

Lemma build_deterministic_witness :
  enumerates default_order /\
  enumerates (fun d => reverse (default_order d)) /\
  run default_order three_pages
  = run (fun d => reverse (default_order d)) three_pages.
Proof.
  assert (H1 : enumerates default_order) by (intros d; reflexivity).
  assert (H2 : enumerates (fun d => reverse (default_order d)))
    by (intros d; apply reverse_Permutation).
  split; [exact H1|]. split; [exact H2|].
  exact (proj1 (build_deterministic default_order
                  (fun d => reverse (default_order d)) three_pages H1 H2)).
Defined.

(** The text of the three objects of a page, spelled out. *)
Lemma image_xobject_text (jpeg : bytes) (w h : Z) :
  image_xobject jpeg w h
  = lines ["<<"; "/Type /XObject"; "/Subtype /Image"]%string
    ++ (encode "/Width " ++ str w ++ nl)
    ++ (encode "/Height " ++ str h ++ nl)
    ++ lines ["/ColorSpace /DeviceRGB"; "/BitsPerComponent 8";
              "/Filter /DCTDecode"]%string
    ++ (encode "/Length " ++ str (Z.of_nat (length jpeg)) ++ nl)
    ++ lines [">>"; "stream"]%string
    ++ jpeg ++ nl ++ encode "endstream".
Proof.
  unfold image_xobject, lines. cbn [map concat].
  rewrite <- !app_assoc. reflexivity.
Qed.

Lemma content_stream_text (w h : Z) :
  let instruction :=
    encode "q " ++ str w ++ encode " 0 0 " ++ str h
    ++ encode " 0 0 cm /Im Do Q" in
  content_stream w h
  = lines ["<<"]%string
    ++ (encode "/Length " ++ str (Z.of_nat (length instruction)) ++ nl)
    ++ lines [">>"; "stream"]%string
    ++ instruction ++ nl ++ encode "endstream".
Proof.
  intros instruction. unfold content_stream, lines. cbn [map concat].
  fold instruction. rewrite <- !app_assoc. reflexivity.
Qed.

Lemma page_dict_text (w h img_num content_num : Z) :
  page_dict w h img_num content_num
  = lines ["<<"; "/Type /Page"; "/Parent 2 0 R"]%string
    ++ (encode "/MediaBox [0 0 " ++ str w ++ encode " " ++ str h
        ++ encode "]" ++ nl)
    ++ lines ["/Resources <<"]%string
    ++ (encode "/XObject << /Im " ++ str img_num ++ encode " 0 R >>" ++ nl)
    ++ lines [">>"]%string
    ++ (encode "/Contents " ++ str content_num ++ encode " 0 R" ++ nl)
    ++ encode ">>".
Proof.
  unfold page_dict, lines, pages_num.
  change (str 2) with (encode "2").
  cbn [map concat]. rewrite <- !app_assoc. reflexivity.
Qed.

(** C5. For the page [(payload, w, h)] at index [i], the buffer holds, at
    the offsets recorded for the identifiers [3 + 3i], [4 + 3i] and
    [5 + 3i]: an image resource declaring [/Width w] and [/Height h]; a
    content stream whose only instruction is [q w 0 0 h 0 0 cm /Im Do Q];
    and a page dictionary whose [/MediaBox] is [[0 0 w h]], naming that
    image and that content stream.  The page rectangle is the image
    rectangle. *)
Theorem page_rectangle_is_image_rectangle
    (pages : list page) (i : nat) (jpeg : bytes) (w h : Z) :
  pages !! i = Some (jpeg, w, h) ->
  let k := Z.of_nat i in
  let instruction :=
    encode "q " ++ str w ++ encode " 0 0 " ++ str h
    ++ encode " 0 0 cm /Im Do Q" in
  exists st out o_img o_cs o_pg,
    emit_objects pages = Ok st /\
    _build_jpeg_pdf pages = Ok out /\
    offsets st !! (3 + 3 * k) = Some o_img /\
    object_at out o_img (3 + 3 * k)
      (lines ["<<"; "/Type /XObject"; "/Subtype /Image"]%string
       ++ (encode "/Width " ++ str w ++ nl)
       ++ (encode "/Height " ++ str h ++ nl)
       ++ lines ["/ColorSpace /DeviceRGB"; "/BitsPerComponent 8";
                 "/Filter /DCTDecode"]%string
       ++ (encode "/Length " ++ str (Z.of_nat (length jpeg)) ++ nl)
       ++ lines [">>"; "stream"]%string
       ++ jpeg ++ nl ++ encode "endstream") /\
    offsets st !! (4 + 3 * k) = Some o_cs /\
    object_at out o_cs (4 + 3 * k)
      (lines ["<<"]%string
       ++ (encode "/Length " ++ str (Z.of_nat (length instruction)) ++ nl)
       ++ lines [">>"; "stream"]%string
       ++ instruction ++ nl ++ encode "endstream") /\
    offsets st !! (5 + 3 * k) = Some o_pg /\
    object_at out o_pg (5 + 3 * k)
      (lines ["<<"; "/Type /Page"; "/Parent 2 0 R"]%string
       ++ (encode "/MediaBox [0 0 " ++ str w ++ encode " " ++ str h
           ++ encode "]" ++ nl)
       ++ lines ["/Resources <<"]%string
       ++ (encode "/XObject << /Im " ++ str (3 + 3 * k)
           ++ encode " 0 R >>" ++ nl)
       ++ lines [">>"]%string
       ++ (encode "/Contents " ++ str (4 + 3 * k) ++ encode " 0 R" ++ nl)
       ++ encode ">>").
Proof.
  intros Hi k instruction.
  destruct (build_layout pages) as (Hst & _ & Hout).
  destruct (page_located pages i jpeg w h Hi)
    as (o1 & o2 & o3 & [H1 H1'] & [H2 H2'] & [H3 H3']).
  rewrite image_xobject_text in H1'.
  rewrite content_stream_text in H2'.
  rewrite page_dict_text in H3'.
  eexists _, _, o1, o2, o3.
  split; [exact Hst|]. split; [exact Hout|].
  split; [exact H1|]. split; [apply H1'|].
  split; [exact H2|]. split; [apply H2'|].
  split; [exact H3|apply H3'].
Qed.

(** The second of the three example pages, 20 wide and 30 high. *)
Lemma page_rectangle_is_image_rectangle_witness :
  three_pages !! 1%nat = Some ([Byte.xff; Byte.xd8; Byte.xff], 20, 30) /\
  exists st out o_img o_cs o_pg,
    emit_objects three_pages = Ok st /\
    _build_jpeg_pdf three_pages = Ok out /\
    offsets st !! 6 = Some o_img /\
    object_at out o_img 6
      (lines ["<<"; "/Type /XObject"; "/Subtype /Image";
              "/Width 20"; "/Height 30";
              "/ColorSpace /DeviceRGB"; "/BitsPerComponent 8";
              "/Filter /DCTDecode"; "/Length 3"; ">>"; "stream"]%string
       ++ [Byte.xff; Byte.xd8; Byte.xff] ++ nl ++ encode "endstream") /\
    offsets st !! 7 = Some o_cs /\
    object_at out o_cs 7
      (lines ["<<"; "/Length 27"; ">>"; "stream"]%string
       ++ encode "q 20 0 0 30 0 0 cm /Im Do Q" ++ nl ++ encode "endstream") /\
    offsets st !! 8 = Some o_pg /\
    object_at out o_pg 8
      (lines ["<<"; "/Type /Page"; "/Parent 2 0 R"; "/MediaBox [0 0 20 30]";
              "/Resources <<"; "/XObject << /Im 6 0 R >>"; ">>";
              "/Contents 7 0 R"]%string
       ++ encode ">>").
Proof.
  split; [reflexivity|].
  exact (page_rectangle_is_image_rectangle three_pages 1
           [Byte.xff; Byte.xd8; Byte.xff] 20 30 eq_refl).
Defined.

(* ================================================================== *)
(** * Further properties of [_jpeg_dimensions] *)

Lemma scan_returns_frame fuel : forall data i w h,
  cursor data i -> enough fuel data i ->
  scan fuel data i = Ok (w, h) ->
  exists j, cursor data j /\ frame_at data j w h.
Proof.
  induction fuel as [|fuel IH]; intros data i w h Hc Hen Hr.
  { destruct Hen; lia. }
  pose proof (cursor_lower_bound data i Hc) as Hi.
  destruct (iteration_cases data i)
    as [Hge|b Hg Hb Hne|m h1 h0 w1 w0 Hg Hb Hm Hs H5 H6 H7 H8
        |m l1 l0 Hg Hb Hm Hs H2 H3]; [lia| | | |].
  - rewrite scan_exhausted in Hr by assumption. discriminate.
  - rewrite (scan_break fuel data i b) in Hr by assumption. discriminate.
  - rewrite (scan_frame fuel data i m h1 h0 w1 w0) in Hr by assumption.
    injection Hr as <- <-.
    exists i. split; [exact Hc|].
    split; [lia|]. split; [exact Hb|]. split.
    { apply is_sof_codes in Hs. destruct Hs as [-> | [-> | ->]]; auto. }
    exists h1, h0, w1, w0.
    rewrite !be16_arith by (eapply index_value_range; eassumption).
    repeat split; assumption.
  - rewrite (scan_skip fuel data i m l1 l0) in Hr by assumption.
    apply (IH data (i + (2 + be16 l1 l0))).
    + eapply cursor_next; eassumption.
    + eapply enough_skip; eassumption.
    + exact Hr.
Qed.

Lemma scan_at_frame fuel data i w h :
  enough fuel data i -> frame_at data i w h ->
  scan fuel data i = Ok (w, h).
Proof.
  intros Hen (Hg & Hb & Hm & h1 & h0 & w1 & w0
              & H5 & H6 & H7 & H8 & -> & ->).
  destruct fuel as [|fuel]; [destruct Hen; lia|].
  rewrite <- !be16_arith by (eapply index_value_range; eassumption).
  assert (Hcode : exists m, index data (i + 1) = Ok m /\ is_sof m = true).
  { destruct Hm as [Hm | [Hm | Hm]]; eexists; (split; [exact Hm|reflexivity]). }
  destruct Hcode as (m & Hm' & Hs).
  eapply scan_frame; try eassumption. lia.
Qed.

(** The cursor positions of the loop are the offsets of the marker chain. *)
Lemma cursor_marker_at (data : bytes) (i : Z) :
  cursor data i <-> marker_at data i.
Proof.
  split.
  - induction 1 as [|i m l1 l0 Hc IH Hg Hb Hm Hs H2 H3].
    + apply marker_first.
    + apply is_sof_other in Hs. destruct Hs as (Hs0 & Hs1 & Hs2).
      rewrite be16_arith by (eapply index_value_range; eassumption).
      replace (i + (2 + (256 * l1 + l0))) with (i + 2 + (256 * l1 + l0))
        by lia.
      apply (marker_next data i m l1 l0); try assumption. lia.
  - induction 1 as [|i m l1 l0 Hc IH Hg Hb Hm Hs0 Hs1 Hs2 H2 H3].
    + apply cursor_start.
    + replace (i + 2 + (256 * l1 + l0)) with (i + (2 + be16 l1 l0)).
      2: { rewrite be16_arith by (eapply index_value_range; eassumption).
           lia. }
      apply (cursor_next data i m l1 l0); try assumption; [lia|].
      apply is_sof_other. auto.
Qed.

(** X1. The parser returns [(w, h)] exactly when the marker chain that
    starts at offset 2, and goes on from a marker 0xFF whose code is none
    of 0xC0, 0xC1, 0xC2 to the offset two bytes plus its big-endian length
    field further, reaches a position with at least nine bytes left that
    holds 0xFF and one of the codes 0xC0, 0xC1, 0xC2, and [h], [w] are the
    two big-endian 16-bit values at offsets 5..6 and 7..8 from it. *)
Theorem jpeg_dimensions_returns_iff (data : bytes) (w h : Z) :
  _jpeg_dimensions data = Ok (w, h) <->
  exists i, marker_at data i /\ frame_at data i w h.
Proof.
  split.
  - intros Hr. unfold _jpeg_dimensions in Hr.
    destruct (scan_returns_frame _ data 2 w h (cursor_start data)
                (enough_start data) Hr) as (i & Hc & Hf).
    exists i. split; [apply cursor_marker_at, Hc|exact Hf].
  - intros (i & Hc & Hf). apply cursor_marker_at in Hc.
    destruct (scan_through data i Hc) as (fuel & Hen & ->).
    apply scan_at_frame; assumption.
Qed.

(** *** Longer buffers *)

Lemma index_ok_inv (data : bytes) (j v : Z) :
  0 <= j -> index data j = Ok v ->
  j < Z.of_nat (length data) /\
  exists b, nth_error data (Z.to_nat j) = Some b /\ v = byte_val b.
Proof.
  intros Hj Hv.
  destruct (Z.lt_ge_cases j (Z.of_nat (length data))) as [Hlt|Hge].
  - split; [exact Hlt|].
    destruct (index_in_range data j) as (b & Hn & Hb); [lia|].
    exists b. split; [exact Hn|]. congruence.
  - exfalso. revert Hv. unfold index, getitem.
    destruct (Z.ltb_spec j 0) as [?|_]; [lia|].
    destruct (Z.ltb_spec j (Z.of_nat (length data))) as [?|_]; [lia|].
    rewrite andb_false_r. discriminate.
Qed.

Lemma index_app_l (data more : bytes) (j v : Z) :
  0 <= j -> index data j = Ok v -> index (data ++ more) j = Ok v.
Proof.
  intros Hj Hv.
  destruct (index_ok_inv data j v Hj Hv) as (Hlt & b & Hn & ->).
  destruct (index_in_range (data ++ more) j) as (b' & Hn' & ->).
  { rewrite length_app. lia. }
  rewrite nth_error_app1 in Hn' by lia. congruence.
Qed.

Lemma cursor_app (data more : bytes) (i : Z) :
  cursor data i -> cursor (data ++ more) i.
Proof.
  induction 1 as [|i m l1 l0 Hc IH Hg Hb Hm Hs H2 H3].
  - apply cursor_start.
  - pose proof (cursor_lower_bound data i Hc) as Hi.
    apply (cursor_next _ i m l1 l0); try assumption.
    + rewrite length_app. lia.
    + apply index_app_l; [lia|exact Hb].
    + apply index_app_l; [lia|exact Hm].
    + apply index_app_l; [lia|exact H2].
    + apply index_app_l; [lia|exact H3].
Qed.

Lemma frame_at_app (data more : bytes) (i w h : Z) :
  0 <= i -> frame_at data i w h -> frame_at (data ++ more) i w h.
Proof.
  intros Hi (Hg & Hb & Hm & h1 & h0 & w1 & w0
             & H5 & H6 & H7 & H8 & Hw & Hh).
  split; [rewrite length_app; lia|].
  split; [apply index_app_l; [lia|exact Hb]|].
  split.
  { destruct Hm as [Hm | [Hm | Hm]]; [left|right; left|right; right];
      (apply index_app_l; [lia|exact Hm]). }
  exists h1, h0, w1, w0.
  repeat split; try assumption; apply index_app_l; (lia || assumption).
Qed.

(** X2. Appending bytes to a stream that the parser accepts does not
    change what it returns: nothing after the frame header is read. *)
Theorem jpeg_dimensions_extend (data more : bytes) (w h : Z) :
  _jpeg_dimensions data = Ok (w, h) ->
  _jpeg_dimensions (data ++ more) = Ok (w, h).
Proof.
  intros Hr. unfold _jpeg_dimensions in Hr.
  destruct (scan_returns_frame _ data 2 w h (cursor_start data)
              (enough_start data) Hr) as (i & Hc & Hf).
  pose proof (cursor_lower_bound data i Hc) as Hi.
  destruct (scan_through (data ++ more) i (cursor_app data more i Hc))
    as (fuel & Hen & ->).
  apply scan_at_frame; [exact Hen|].
  apply frame_at_app; [lia|exact Hf].
Qed.

Lemma jpeg_dimensions_extend_witness :
  _jpeg_dimensions minimal_jpeg = Ok (100, 50) /\
  _jpeg_dimensions (minimal_jpeg ++ [Byte.xff; Byte.xd9]) = Ok (100, 50).
Proof.
  assert (H : _jpeg_dimensions minimal_jpeg = Ok (100, 50))
    by (vm_compute; reflexivity).
  split; [exact H|].
  exact (jpeg_dimensions_extend minimal_jpeg [Byte.xff; Byte.xd9] 100 50 H).
Defined.

(** *** The signature *)

Lemma index_past_signature (a b c d : Byte.byte) (rest : bytes) (j : Z) :
  2 <= j -> index (a :: b :: rest) j = index (c :: d :: rest) j.
Proof.
  intros Hj. unfold index, getitem. cbn [length].
  destruct (Z.ltb_spec j 0) as [?|_]; [lia|].
  replace (Z.to_nat j) with (S (S (Z.to_nat (j - 2)))) by lia.
  reflexivity.
Qed.

Lemma scan_past_signature (a b c d : Byte.byte) (rest : bytes) fuel :
  forall i, 2 <= i ->
  scan fuel (a :: b :: rest) i = scan fuel (c :: d :: rest) i.
Proof.
  induction fuel as [|fuel IH]; intros i Hi; [reflexivity|].
  assert (Hidx : forall k, 0 <= k ->
            index (a :: b :: rest) (i + k) = index (c :: d :: rest) (i + k))
    by (intros k Hk; apply index_past_signature; lia).
  assert (Hidx0 : index (a :: b :: rest) i = index (c :: d :: rest) i)
    by (apply index_past_signature; lia).
  assert (Hto : forall k v, 0 <= k ->
            index (c :: d :: rest) (i + k) = Ok v ->
            index (a :: b :: rest) (i + k) = Ok v)
    by (intros k v Hk Hv; rewrite Hidx by exact Hk; exact Hv).
  destruct (iteration_cases (c :: d :: rest) i)
    as [Hge|v Hg Hb Hne|m h1 h0 w1 w0 Hg Hb Hm Hs H5 H6 H7 H8
        |m l1 l0 Hg Hb Hm Hs H2 H3]; [lia| | | |].
  - rewrite (scan_exhausted fuel (c :: d :: rest) i Hge).
    exact (scan_exhausted fuel (a :: b :: rest) i Hge).
  - rewrite (scan_break fuel (c :: d :: rest) i v Hg Hb Hne).
    rewrite <- Hidx0 in Hb.
    exact (scan_break fuel (a :: b :: rest) i v Hg Hb Hne).
  - rewrite (scan_frame fuel (c :: d :: rest) i m h1 h0 w1 w0
               Hg Hb Hm Hs H5 H6 H7 H8).
    rewrite <- Hidx0 in Hb.
    exact (scan_frame fuel (a :: b :: rest) i m h1 h0 w1 w0 Hg Hb
             (Hto 1 _ ltac:(lia) Hm) Hs (Hto 5 _ ltac:(lia) H5)
             (Hto 6 _ ltac:(lia) H6) (Hto 7 _ ltac:(lia) H7)
             (Hto 8 _ ltac:(lia) H8)).
  - rewrite (scan_skip fuel (c :: d :: rest) i m l1 l0 Hg Hb Hm Hs H2 H3).
    pose proof (skip_advances _ i l1 l0 H2 H3) as Hadv.
    rewrite <- Hidx0 in Hb.
    rewrite (scan_skip fuel (a :: b :: rest) i m l1 l0 Hg Hb
               (Hto 1 _ ltac:(lia) Hm) Hs (Hto 2 _ ltac:(lia) H2)
               (Hto 3 _ ltac:(lia) H3)).
    apply IH. lia.
Qed.

(** X3. The two signature bytes are skipped without being looked at: two
    streams that differ only there get the same answer, whether that is a
    pair or the failure. *)
Theorem jpeg_dimensions_ignores_signature
    (a b c d : Byte.byte) (rest : bytes) :
  _jpeg_dimensions (a :: b :: rest) = _jpeg_dimensions (c :: d :: rest).
Proof.
  unfold _jpeg_dimensions. cbn [length].
  apply scan_past_signature. lia.
Qed.

(** *** Truncated streams *)

Lemma scan_truncated (tail : bytes) (segs : list segment) :
  forall (pre : bytes) (fuel : nat),
  Forall segment_ok segs ->
  (length tail <= 8)%nat ->
  let data := pre ++ concat (map segment_bytes segs) ++ tail in
  enough fuel data (Z.of_nat (length pre)) ->
  scan fuel data (Z.of_nat (length pre)) = Raise parse_failure.
Proof.
  induction segs as [|s segs IH]; intros pre fuel Hok Htail data Hen;
    (destruct fuel as [|fuel]; [destruct Hen; lia|]).
  - apply scan_exhausted. subst data. cbn [map concat app].
    rewrite length_app. lia.
  - destruct (Z.le_gt_cases (Z.of_nat (length data) - 8)
                (Z.of_nat (length pre))) as [Hge|Hg].
    { apply scan_exhausted. exact Hge. }
    inversion Hok as [|? ? Hs Hok']; subst.
    destruct (segment_ok_inv s Hs) as [Hcode Hlen]. clear Hs.
    destruct s as [c hi lo payload].
    cbn [seg_code seg_hi seg_lo seg_payload] in *.
    set (tl := concat (map segment_bytes segs) ++ tail) in *.
    assert (Hdata : data = pre ++ (Byte.xff :: c :: hi :: lo :: payload ++ tl)).
    { subst data tl.
      cbn [map concat segment_bytes seg_code seg_hi seg_lo seg_payload].
      rewrite <- !app_assoc. reflexivity. }
    rewrite (scan_skip fuel data (Z.of_nat (length pre)) (byte_val c)
               (byte_val hi) (byte_val lo)); try assumption.
    2: { rewrite Hdata. apply (index_app_here pre _ Byte.xff). }
    2: { rewrite Hdata. apply index_app_at; [lia|reflexivity]. }
    2: { rewrite Hdata. apply index_app_at; [lia|reflexivity]. }
    2: { rewrite Hdata. apply index_app_at; [lia|reflexivity]. }
    rewrite be16_arith by apply byte_val_range.
    rewrite Hlen.
    set (pre' := pre ++ segment_bytes (Segment c hi lo payload)).
    assert (Hpre' : Z.of_nat (length pre')
              = Z.of_nat (length pre) + (2 + (2 + Z.of_nat (length payload)))).
    { subst pre'. rewrite length_app.
      cbn [segment_bytes length seg_code seg_hi seg_lo seg_payload]. lia. }
    rewrite <- Hpre'.
    assert (Hdata' : data = pre' ++ concat (map segment_bytes segs) ++ tail).
    { rewrite Hdata. subst tl pre'.
      cbn [segment_bytes seg_code seg_hi seg_lo seg_payload].
      rewrite <- !app_assoc. reflexivity. }
    assert (Hen' : enough fuel data (Z.of_nat (length pre')))
      by (destruct Hen as [_ Hen]; unfold enough; lia).
    rewrite Hdata' in Hen' |- *. apply IH; assumption.
Qed.

(** X4. Every input of fewer than eleven bytes is rejected, the empty
    one and a single byte included; and so is every stream made of two
    signature bytes, any number of segments whose marker code is none of
    0xC0, 0xC1, 0xC2 and whose length field is right, and at most eight
    more bytes. *)
Theorem jpeg_dimensions_truncated_after_segments (data : bytes) :
  (length data < 11)%nat \/
  (exists (s0 s1 : Byte.byte) (segs : list segment) (tail : bytes),
     Forall segment_ok segs /\
     (length tail <= 8)%nat /\
     data = [s0; s1] ++ concat (map segment_bytes segs) ++ tail) ->
  _jpeg_dimensions data = Raise parse_failure.
Proof.
  intros [Hshort|(s0 & s1 & segs & tail & Hok & Htail & ->)];
    unfold _jpeg_dimensions.
  - apply scan_exhausted. lia.
  - apply (scan_truncated tail segs [s0; s1]); [assumption..|].
    unfold enough. cbn [length app]. lia.
Qed.

(** A single byte; and the signature, an empty APP0 segment, a 1x1 frame
    header behind it that lacks its last byte. *)
Lemma jpeg_dimensions_truncated_after_segments_witness :
  ((length [Byte.xff] < 11)%nat /\
   _jpeg_dimensions [Byte.xff] = Raise parse_failure) /\
  (Forall segment_ok [Segment Byte.xe0 Byte.x00 Byte.x02 []] /\
   (length [Byte.xff; Byte.xc0; Byte.x00; Byte.x0b; Byte.x08;
            Byte.x00; Byte.x01; Byte.x00] <= 8)%nat /\
   _jpeg_dimensions
     [Byte.xff; Byte.xd8;
      Byte.xff; Byte.xe0; Byte.x00; Byte.x02;
      Byte.xff; Byte.xc0; Byte.x00; Byte.x0b; Byte.x08;
      Byte.x00; Byte.x01; Byte.x00]
   = Raise parse_failure).
Proof.
  assert (Hshort : (length [Byte.xff] < 11)%nat) by (cbn [length]; lia).
  assert (Hok : Forall segment_ok [Segment Byte.xe0 Byte.x00 Byte.x02 []]).
  { repeat constructor; discriminate. }
  assert (Hlen : (length [Byte.xff; Byte.xc0; Byte.x00; Byte.x0b; Byte.x08;
                          Byte.x00; Byte.x01; Byte.x00] <= 8)%nat)
    by (cbn [length]; lia).
  split.
  - split; [exact Hshort|].
    exact (jpeg_dimensions_truncated_after_segments [Byte.xff]
             (or_introl Hshort)).
  - split; [exact Hok|]. split; [exact Hlen|].
    refine (jpeg_dimensions_truncated_after_segments _ (or_intror _)).
    exists Byte.xff, Byte.xd8, [Segment Byte.xe0 Byte.x00 Byte.x02 []],
      [Byte.xff; Byte.xc0; Byte.x00; Byte.x0b; Byte.x08;
       Byte.x00; Byte.x01; Byte.x00].
    split; [exact Hok|]. split; [exact Hlen|reflexivity].
Defined.

(* ================================================================== *)
(** * Further properties of [_build_jpeg_pdf] *)

(** *** Where the objects lie *)

Lemma obj_bytes_nonempty (num : Z) (data : bytes) :
  (0 < length (obj_bytes num data))%nat.
Proof.
  unfold obj_bytes. rewrite !length_app. cbn [nl length]. lia.
Qed.

Lemma objs_bytes_take_lt (objs : list (Z * bytes)) : forall j k : nat,
  (j < k <= length objs)%nat ->
  (length (objs_bytes (take j objs)) < length (objs_bytes (take k objs)))%nat.
Proof.
  induction objs as [|o objs IH]; intros j k Hjk; cbn [length] in Hjk; [lia|].
  destruct k as [|k]; [lia|].
  destruct j as [|j].
  - cbn [take]. unfold objs_bytes at 2. cbn [map concat].
    rewrite length_app. pose proof (obj_bytes_nonempty (fst o) (snd o)).
    cbn [objs_bytes map concat length]. lia.
  - cbn [take]. unfold objs_bytes. cbn [map concat].
    rewrite !length_app. specialize (IH j k). unfold objs_bytes in IH. lia.
Qed.

Lemma objs_bytes_take_le (objs : list (Z * bytes)) (k : nat) :
  (length (objs_bytes (take k objs)) <= length (objs_bytes objs))%nat.
Proof.
  rewrite <- (take_drop k objs) at 2. rewrite objs_bytes_app, length_app. lia.
Qed.

(** The object numbered [num] is the [num]-th one written. *)
Lemma object_position (pages : list page) before num data after :
  document_objects pages = before ++ (num, data) :: after ->
  Z.of_nat (length before) = num - 1.
Proof.
  intros Hsplit.
  assert (Hnth : nth_error (map fst (document_objects pages)) (length before)
                 = Some num).
  { rewrite Hsplit, map_app, nth_error_app2 by (rewrite length_map; lia).
    rewrite length_map, Nat.sub_diag. reflexivity. }
  assert (Hlt : (length before < length (map fst (document_objects pages)))%nat).
  { rewrite length_map, Hsplit, length_app. cbn [length]. lia. }
  rewrite document_objects_ids, length_range in Hlt.
  rewrite document_objects_ids, nth_range in Hnth by exact Hlt.
  injection Hnth as <-. lia.
Qed.

Lemma offset_of_number (pages : list page) (num : Z) :
  1 <= num <= 2 + 3 * Z.of_nat (length pages) ->
  let objs := document_objects pages in
  (Z.to_nat (num - 1) < length objs)%nat /\
  offsets (write_all objs (State pdf_header ∅)) !! num
  = Some (Z.of_nat (length (pdf_header
                            ++ objs_bytes (take (Z.to_nat (num - 1)) objs)))).
Proof.
  intros Hnum objs.
  destruct (object_of_number pages num Hnum) as (before & data & after & Hsplit).
  pose proof (object_position pages before num data after Hsplit) as Hpos.
  assert (Hnot : num ∉ map fst after).
  { pose proof (NoDup_range 1 (3 + 3 * Z.of_nat (length pages))) as Hnd.
    rewrite <- document_objects_ids, Hsplit, map_app in Hnd.
    cbn [map fst] in Hnd.
    apply NoDup_app in Hnd as (_ & _ & Hnd).
    apply NoDup_cons in Hnd as [Hnd _]. exact Hnd. }
  subst objs. rewrite Hsplit. split.
  - rewrite length_app. cbn [length]. lia.
  - replace (Z.to_nat (num - 1)) with (length before) by lia.
    rewrite take_app_length.
    exact (write_all_offsets_at before num data after (State pdf_header ∅) Hnot).
Qed.

(** X5. Objects lie in the buffer in the order of their identifiers: of
    two identifiers in the object table the smaller one has the smaller
    offset, and every recorded offset falls after the 15-byte header and
    inside the body that precedes the cross-reference section. *)
Theorem objects_in_ascending_order
    (pages : list page) (st : state) (a b oa ob : Z) :
  emit_objects pages = Ok st ->
  offsets st !! a = Some oa ->
  offsets st !! b = Some ob ->
  a < b ->
  15 <= oa /\ oa < ob /\ ob < Z.of_nat (length (buf st)).
Proof.
  intros Hst Ha Hb Hab. rewrite emit_objects_write in Hst.
  assert (Hst' : st = write_all (document_objects pages) (State pdf_header ∅))
    by congruence.
  clear Hst. subst st.
  assert (Hxa : 1 <= a <= 2 + 3 * Z.of_nat (length pages))
    by (apply offsets_defined; eauto).
  assert (Hxb : 1 <= b <= 2 + 3 * Z.of_nat (length pages))
    by (apply offsets_defined; eauto).
  destruct (offset_of_number pages a Hxa) as [Hla Ha'].
  destruct (offset_of_number pages b Hxb) as [Hlb Hb'].
  rewrite Ha' in Ha. rewrite Hb' in Hb.
  injection Ha as <-. injection Hb as <-.
  rewrite write_all_buf. cbn [buf]. rewrite !length_app.
  change (length pdf_header) with 15%nat.
  pose proof (objs_bytes_take_lt (document_objects pages)
                (Z.to_nat (a - 1)) (Z.to_nat (b - 1)) ltac:(lia)) as Hlt.
  pose proof (objs_bytes_take_lt (document_objects pages)
                (Z.to_nat (b - 1)) (S (Z.to_nat (b - 1))) ltac:(lia)) as Hlt'.
  pose proof (objs_bytes_take_le (document_objects pages)
                (S (Z.to_nat (b - 1)))) as Hle.
  lia.
Qed.

Lemma objects_in_ascending_order_witness :
  let st := write_all (document_objects three_pages) (State pdf_header ∅) in
  emit_objects three_pages = Ok st /\
  offsets st !! 6 = Some 503 /\
  offsets st !! 8 = Some 746 /\
  6 < 8 /\
  (15 <= 503 /\ 503 < 746 /\ 746 < Z.of_nat (length (buf st))).
Proof.
  intros st.
  assert (H0 : emit_objects three_pages = Ok st) by apply emit_objects_write.
  assert (H1 : offsets st !! 6 = Some 503) by (vm_compute; reflexivity).
  assert (H2 : offsets st !! 8 = Some 746) by (vm_compute; reflexivity).
  assert (H3 : 6 < 8) by lia.
  split; [exact H0|]. split; [exact H1|]. split; [exact H2|].
  split; [exact H3|].
  exact (objects_in_ascending_order three_pages st 6 8 503 746 H0 H1 H2 H3).
Defined.

(** *** The width of decimal text *)

Lemma length_encode (s : string) : length (encode s) = String.length s.
Proof.
  unfold encode. induction s as [|c s IH]; cbn; [reflexivity|].
  unfold list_byte_of_string in IH. rewrite IH. reflexivity.
Qed.

Lemma length_string_of_uint (d : Decimal.uint) :
  String.length (NilEmpty.string_of_uint d) = Decimal.nb_digits d.
Proof. induction d; cbn; congruence. Qed.

Lemma usize_nb_digits (d : Decimal.uint) :
  Unsigned.usize d = N.of_nat (Decimal.nb_digits d).
Proof.
  induction d; cbn [Unsigned.usize Decimal.nb_digits];
    rewrite ?IHd; lia.
Qed.

Lemma of_lu_bound (d : Decimal.uint) :
  (Unsigned.of_lu d < 10 ^ Unsigned.usize d)%N.
Proof.
  induction d; cbn [Unsigned.of_lu Unsigned.usize];
    rewrite ?N.pow_succ_r'; cbn [N.pow]; lia.
Qed.

(** The decimal digits of a positive number start with a non-zero digit. *)
Lemma to_uint_leading (p : positive) :
  exists acc l,
    (1 <= acc <= 9)%positive /\
    N.pos (Pos.of_uint_acc l acc) = N.pos p /\
    Decimal.nb_digits (Pos.to_uint p) = S (Decimal.nb_digits l).
Proof.
  pose proof (Unsigned.of_to p) as Hof.
  pose proof (Unsigned.to_uint_nonnil p) as Hnil.
  pose proof (Unsigned.to_uint_nonzero p) as Hzero.
  destruct (Pos.to_uint p) as [|l|l|l|l|l|l|l|l|l|l] eqn:E;
    [congruence| |cbn [Pos.of_uint] in Hof..].
  - exfalso.
    assert (Hn : Decimal.unorm l = Decimal.D0 l).
    { rewrite <- (Unsigned.to_of l). cbn [Pos.of_uint] in Hof. rewrite Hof.
      cbn [N.to_uint]. exact E. }
    destruct l as [|l|l|l|l|l|l|l|l|l|l];
      try (apply Hzero; reflexivity);
      match goal with
      | H : Decimal.unorm ?u = Decimal.D0 ?u |- _ =>
          pose proof (DecimalFacts.nb_digits_unorm u ltac:(discriminate)) as Hle;
          rewrite H in Hle; cbn [Decimal.nb_digits] in Hle; lia
      end.
  - exists 1%positive, l. repeat split; [lia..|exact Hof].
  - exists 2%positive, l. repeat split; [lia..|exact Hof].
  - exists 3%positive, l. repeat split; [lia..|exact Hof].
  - exists 4%positive, l. repeat split; [lia..|exact Hof].
  - exists 5%positive, l. repeat split; [lia..|exact Hof].
  - exists 6%positive, l. repeat split; [lia..|exact Hof].
  - exists 7%positive, l. repeat split; [lia..|exact Hof].
  - exists 8%positive, l. repeat split; [lia..|exact Hof].
  - exists 9%positive, l. repeat split; [lia..|exact Hof].
Qed.

Lemma usize_revapp (d d' : Decimal.uint) :
  Unsigned.usize (Decimal.revapp d d')
  = (Unsigned.usize d + Unsigned.usize d')%N.
Proof.
  revert d'. induction d; intros d'; cbn [Decimal.revapp Unsigned.usize];
    rewrite ?IHd; cbn [Unsigned.usize]; lia.
Qed.

(** A positive number has at most [k] digits exactly when it is below
    [10 ^ k]. *)
Lemma digits_bound (p : positive) (k : nat) :
  (Decimal.nb_digits (Pos.to_uint p) <= k)%nat <->
  (N.pos p < 10 ^ N.of_nat k)%N.
Proof.
  destruct (to_uint_leading p) as (acc & l & Hacc & Hval & Hnb).
  rewrite Hnb, <- Hval, Unsigned.of_uint_acc_rev.
  pose proof (of_lu_bound (Decimal.rev l)) as Hlow.
  unfold Decimal.rev in Hlow at 2. rewrite usize_revapp in Hlow.
  cbn [Unsigned.usize] in Hlow. rewrite N.add_0_r in Hlow.
  rewrite usize_nb_digits in *.
  set (m := Decimal.nb_digits l) in *.
  set (r := Unsigned.of_lu (Decimal.rev l)) in *.
  split.
  - intros Hle.
    apply N.lt_le_trans with (10 ^ N.of_nat (S m))%N.
    + rewrite Nat2N.inj_succ, N.pow_succ_r'. nia.
    + apply N.pow_le_mono_r; lia.
  - intros Hlt.
    destruct (Nat.le_gt_cases (S m) k) as [Hle|Hgt]; [exact Hle|exfalso].
    assert (Hpow : (10 ^ N.of_nat k <= 10 ^ N.of_nat m)%N)
      by (apply N.pow_le_mono_r; lia).
    nia.
Qed.

Lemma length_str_nonneg (n : Z) (k : nat) :
  0 <= n -> (1 <= k)%nat ->
  (length (str n) <= k)%nat <-> n < 10 ^ Z.of_nat k.
Proof.
  intros Hn Hk. unfold str. rewrite length_encode.
  destruct n as [|p|p]; [| |lia].
  - cbn. split; [intros _; apply Z.pow_pos_nonneg; lia|lia].
  - cbn [Z.to_int NilZero.string_of_int].
    assert (Hs : NilZero.string_of_uint (Pos.to_uint p)
                 = NilEmpty.string_of_uint (Pos.to_uint p)).
    { pose proof (Unsigned.to_uint_nonnil p).
      destruct (Pos.to_uint p); [congruence|reflexivity..]. }
    rewrite Hs, length_string_of_uint, digits_bound.
    rewrite <- (N2Z.inj_pos p).
    change 10 with (Z.of_N 10). rewrite <- nat_N_Z, <- N2Z.inj_pow.
    split; lia.
Qed.

Lemma fmt_010d_nonneg (n : Z) :
  0 <= n ->
  fmt_010d n = repeat Byte.x30 (10 - length (str n)) ++ str n.
Proof.
  intros Hn. unfold fmt_010d.
  destruct (Z.ltb_spec n 0); [lia|reflexivity].
Qed.

(** [f"{n:010d}"] has ten characters up to [10 ^ 10 - 1], more beyond. *)
Lemma length_fmt_010d (n : Z) :
  0 <= n ->
  (n < 10 ^ 10 -> length (fmt_010d n) = 10%nat) /\
  (10 ^ 10 <= n -> (10 < length (fmt_010d n))%nat).
Proof.
  intros Hn. rewrite fmt_010d_nonneg by exact Hn.
  rewrite length_app, repeat_length.
  pose proof (length_str_nonneg n 10 Hn ltac:(lia)) as Hlen.
  change (Z.of_nat 10) with 10 in Hlen.
  split; intros H.
  - apply Hlen in H. lia.
  - assert (~ (length (str n) <= 10)%nat) by (rewrite Hlen; lia). lia.
Qed.

(** *** Reading a padded number back *)

Lemma string_of_zeros (k : nat) (bs : bytes) :
  string_of_list_byte (repeat Byte.x30 k ++ bs)
  = Nat.iter k (String "0"%char) (string_of_list_byte bs).
Proof.
  induction k as [|k IH]; [reflexivity|].
  rewrite Nat.iter_succ, <- IH. reflexivity.
Qed.

Lemma uint_of_zeros (k : nat) (d : Decimal.uint) :
  NilEmpty.uint_of_string
    (Nat.iter k (String "0"%char) (NilEmpty.string_of_uint d))
  = Some (Nat.iter k Decimal.D0 d).
Proof.
  induction k as [|k IH].
  - apply NilEmpty.usu.
  - rewrite !Nat.iter_succ. cbn [NilEmpty.uint_of_string].
    rewrite IH. reflexivity.
Qed.

Lemma int_of_zeros (k : nat) (d : Decimal.uint) :
  d <> Decimal.Nil ->
  NilZero.int_of_string
    (Nat.iter k (String "0"%char) (NilEmpty.string_of_uint d))
  = Some (Decimal.Pos (Nat.iter k Decimal.D0 d)).
Proof.
  intros Hd. pose proof (uint_of_zeros k d) as Hu.
  destruct k as [|k].
  - cbn [Nat.iter] in *.
    destruct d; [congruence|..]; cbn in Hu |- *; rewrite ?Hu;
      cbn in Hu |- *; rewrite ?NilEmpty.usu; reflexivity.
  - rewrite !Nat.iter_succ in *. unfold NilZero.int_of_string.
    cbn [Ascii.eqb Bool.eqb]. unfold NilZero.uint_of_string.
    rewrite Hu. reflexivity.
Qed.

Lemma of_uint_zeros (k : nat) (d : Decimal.uint) :
  Pos.of_uint (Nat.iter k Decimal.D0 d) = Pos.of_uint d.
Proof.
  induction k as [|k IH]; [reflexivity|].
  rewrite Nat.iter_succ. exact IH.
Qed.

Lemma parse_int_padded (k : nat) (n : Z) :
  0 <= n -> parse_int (repeat Byte.x30 k ++ str n) = Some n.
Proof.
  intros Hn. unfold parse_int, str, encode.
  rewrite string_of_zeros, string_of_list_byte_of_string.
  assert (Hd : exists d, d <> Decimal.Nil /\
                 Z.to_int n = Decimal.Pos d /\
                 NilZero.string_of_int (Z.to_int n)
                 = NilEmpty.string_of_uint d).
  { destruct n as [|p|p]; [| |lia].
    - exists (Decimal.D0 Decimal.Nil). repeat split. discriminate.
    - exists (Pos.to_uint p). pose proof (Unsigned.to_uint_nonnil p) as Hp.
      repeat split; [exact Hp|].
      cbn [Z.to_int NilZero.string_of_int].
      destruct (Pos.to_uint p); [congruence|reflexivity..]. }
  destruct Hd as (d & Hd & Hint & ->).
  rewrite (int_of_zeros k d Hd). f_equal.
  rewrite <- (DecimalZ.of_to n), Hint.
  cbn [Z.of_int]. unfold Z.of_uint. rewrite of_uint_zeros. reflexivity.
Qed.

Lemma recorded_offset_range (pages : list page) (num off : Z) :
  offsets (write_all (document_objects pages) (State pdf_header ∅)) !! num
  = Some off ->
  0 <= off
  < Z.of_nat (length (buf (write_all (document_objects pages)
                             (State pdf_header ∅)))).
Proof.
  intros Hoff.
  assert (Hnum : 1 <= num <= 2 + 3 * Z.of_nat (length pages))
    by (apply offsets_defined; eauto).
  destruct (offset_of_number pages num Hnum) as [Hlt Hoff'].
  rewrite Hoff' in Hoff. injection Hoff as <-.
  rewrite write_all_buf. cbn [buf]. rewrite !length_app.
  pose proof (objs_bytes_take_lt (document_objects pages)
                (Z.to_nat (num - 1)) (S (Z.to_nat (num - 1))) ltac:(lia)).
  pose proof (objs_bytes_take_le (document_objects pages)
                (S (Z.to_nat (num - 1)))).
  change (length pdf_header) with 15%nat. lia.
Qed.

(** X6. The entry written for an identifier of the object table reads
    back to the recorded offset: its text before [" 00000 n \n"], taken as
    a decimal number with its leading zeros, is the byte offset of the
    object. *)
Theorem xref_entry_reads_back
    (pages : list page) (st : state) (num off : Z) :
  emit_objects pages = Ok st ->
  offsets st !! num = Some off ->
  exists digits,
    xref_entry (offsets st) num = digits ++ encode " 00000 n " ++ nl /\
    parse_int digits = Some off.
Proof.
  intros Hst Hoff. rewrite emit_objects_write in Hst.
  assert (Hst' : st = write_all (document_objects pages) (State pdf_header ∅))
    by congruence.
  clear Hst. subst st.
  pose proof (recorded_offset_range pages num off Hoff) as Hrange.
  exists (fmt_010d off). split.
  - unfold xref_entry. rewrite Hoff. reflexivity.
  - rewrite fmt_010d_nonneg by lia. apply parse_int_padded. lia.
Qed.

Lemma xref_entry_reads_back_witness :
  let st := write_all (document_objects three_pages) (State pdf_header ∅) in
  emit_objects three_pages = Ok st /\
  offsets st !! 6 = Some 503 /\
  exists digits,
    xref_entry (offsets st) 6 = digits ++ encode " 00000 n " ++ nl /\
    parse_int digits = Some 503.
Proof.
  intros st.
  assert (H0 : emit_objects three_pages = Ok st) by apply emit_objects_write.
  assert (H1 : offsets st !! 6 = Some 503) by (vm_compute; reflexivity).
  split; [exact H0|]. split; [exact H1|].
  exact (xref_entry_reads_back three_pages st 6 503 H0 H1).
Defined.

(** X7. While the body is shorter than [10 ^ 10] bytes, every line of the
    cross-reference table is exactly 20 bytes long, the free-list head
    included; an offset of [10 ^ 10] or more would make its line longer,
    since the format only pads. *)
Theorem xref_entries_fixed_width (pages : list page) (st : state) :
  emit_objects pages = Ok st ->
  Z.of_nat (length (buf st)) < 10 ^ 10 ->
  length xref_free_entry = 20%nat /\
  (forall num, length (xref_entry (offsets st) num) = 20%nat) /\
  (forall offs num off,
     offs !! num = Some off -> 10 ^ 10 <= off ->
     (20 < length (xref_entry offs num))%nat).
Proof.
  intros Hst Hsize. rewrite emit_objects_write in Hst.
  assert (Hst' : st = write_all (document_objects pages) (State pdf_header ∅))
    by congruence.
  clear Hst. subst st.
  split; [reflexivity|]. split.
  - intros num. unfold xref_entry. rewrite !length_app.
    cbn [nl length encode list_byte_of_string].
    assert (Hoff : 0 <= default 0 (offsets (write_all (document_objects pages)
                                    (State pdf_header ∅)) !! num) < 10 ^ 10).
    { destruct (offsets _ !! num) as [off|] eqn:E; cbn [default from_option id].
      - pose proof (recorded_offset_range pages num off E). lia.
      - split; [lia|reflexivity]. }
    destruct (length_fmt_010d _ (proj1 Hoff)) as [Hten _].
    rewrite (Hten (proj2 Hoff)). reflexivity.
  - intros offs num off Hoff Hbig. unfold xref_entry. rewrite Hoff.
    cbn [default from_option id]. rewrite !length_app.
    assert (Hpos : 0 < 10 ^ 10) by reflexivity.
    destruct (length_fmt_010d off ltac:(lia)) as [_ Hmore].
    specialize (Hmore Hbig).
    rewrite length_encode. cbn [String.length nl length]. lia.
Qed.

Lemma xref_entries_fixed_width_witness :
  let st := write_all (document_objects three_pages) (State pdf_header ∅) in
  emit_objects three_pages = Ok st /\
  Z.of_nat (length (buf st)) < 10 ^ 10 /\
  length (xref_entry (offsets st) 6) = 20%nat.
Proof.
  intros st.
  assert (H0 : emit_objects three_pages = Ok st) by apply emit_objects_write.
  assert (H1 : Z.of_nat (length (buf st)) < 10 ^ 10)
    by (vm_compute; reflexivity).
  split; [exact H0|]. split; [exact H1|].
  exact (proj1 (proj2 (xref_entries_fixed_width three_pages st H0 H1)) 6).
Defined.

(* ================================================================== *)
(** * Properties of [combine_via_sips] *)

(** *** The temporary file name *)

Lemma starts_with_spec (old s : text) :
  starts_with old s = true <-> exists t, s = old ++ t.
Proof.
  revert s. induction old as [|a old IH]; intros s; cbn [starts_with].
  - split; [intros _; exists s; reflexivity|reflexivity].
  - destruct s as [|b s].
    + split; [discriminate|intros [t Ht]; discriminate].
    + rewrite andb_true_iff, IH. split.
      * intros [Hab [t ->]]. apply Ascii.eqb_eq in Hab as ->.
        exists t. reflexivity.
      * intros [t Ht]. cbn [app] in Ht. injection Ht as -> ->.
        split; [apply Ascii.eqb_refl|exists t; reflexivity].
Qed.

Lemma replace_from_enough (old new : text) :
  old <> [] ->
  forall (fuel1 fuel2 : nat) (s : text),
    (length s <= fuel1)%nat -> (length s <= fuel2)%nat ->
    replace_from fuel1 old new s = replace_from fuel2 old new s.
Proof.
  intros Hold. induction fuel1 as [|fuel1 IH]; intros fuel2 s H1 H2.
  - destruct s; [|cbn [length] in H1; lia]. destruct fuel2; reflexivity.
  - destruct fuel2 as [|fuel2].
    { destruct s; [reflexivity|cbn [length] in H2; lia]. }
    destruct s as [|c s]; [reflexivity|].
    cbn [replace_from]. cbn [length] in H1, H2.
    destruct (starts_with old (c :: s)) eqn:E.
    + f_equal.
      assert (Hlen : (length (skipn (length old) (c :: s)) <= length s)%nat).
      { rewrite length_skipn. destruct old; [congruence|].
        cbn [length]. lia. }
      apply IH; lia.
    + f_equal. apply IH; lia.
Qed.

Lemma replace_nil (old new : text) : replace old new [] = [].
Proof. reflexivity. Qed.

Lemma replace_match (old new t : text) :
  old <> [] -> replace old new (old ++ t) = new ++ replace old new t.
Proof.
  intros Hold. unfold replace.
  destruct (old ++ t) as [|c s] eqn:E.
  { destruct old; [congruence|discriminate]. }
  cbn [length replace_from].
  assert (Hsw : starts_with old (c :: s) = true)
    by (apply starts_with_spec; exists t; congruence).
  rewrite Hsw. f_equal.
  rewrite <- E, skipn_app, Nat.sub_diag, skipn_all. cbn [app skipn].
  apply replace_from_enough; [exact Hold| |lia].
  apply (f_equal (@length ascii)) in E. rewrite length_app in E.
  cbn [length] in E. destruct old; [congruence|]. cbn [length] in E. lia.
Qed.

Lemma replace_keep (old new : text) (c : ascii) (s : text) :
  old <> [] -> starts_with old (c :: s) = false ->
  replace old new (c :: s) = c :: replace old new s.
Proof.
  intros Hold Hsw. unfold replace. cbn [length replace_from].
  rewrite Hsw. reflexivity.
Qed.

Lemma occurs_cons (old : text) (c : ascii) (s : text) :
  occurs old s -> occurs old (c :: s).
Proof.
  intros (before & after & ->). exists (c :: before), after. reflexivity.
Qed.

Lemma occurs_uncons (old : text) (c : ascii) (s : text) :
  occurs old (c :: s) -> starts_with old (c :: s) = false -> occurs old s.
Proof.
  intros (before & after & Hs) Hsw.
  destruct before as [|b before].
  - exfalso. cbn [app] in Hs.
    assert (starts_with old (c :: s) = true)
      by (apply starts_with_spec; exists after; exact Hs).
    congruence.
  - cbn [app] in Hs. injection Hs as _ ->. exists before, after. reflexivity.
Qed.

Lemma replace_absent (old new s : text) :
  old <> [] -> ~ occurs old s -> replace old new s = s.
Proof.
  intros Hold. induction s as [|c s IH]; intros Hno; [reflexivity|].
  assert (Hsw : starts_with old (c :: s) = false).
  { destruct (starts_with old (c :: s)) eqn:E; [|reflexivity].
    exfalso. apply Hno. apply starts_with_spec in E as [t Ht].
    exists [], t. exact Ht. }
  rewrite replace_keep by assumption. f_equal.
  apply IH. intros Hocc. apply Hno, occurs_cons, Hocc.
Qed.

Lemma replace_grows (old new : text) :
  old <> [] -> (length old <= length new)%nat ->
  forall (n : nat) (s : text), (length s <= n)%nat ->
    (length s <= length (replace old new s))%nat.
Proof.
  intros Hold Hlen. induction n as [|n IH]; intros s Hs.
  { destruct s; [cbn; lia|cbn [length] in Hs; lia]. }
  destruct s as [|c s]; [cbn; lia|].
  destruct (starts_with old (c :: s)) eqn:E.
  - apply starts_with_spec in E as [t Ht]. rewrite Ht.
    rewrite replace_match, !length_app by exact Hold.
    assert (length t <= n)%nat.
    { apply (f_equal (@length ascii)) in Ht. rewrite length_app in Ht.
      cbn [length] in Ht, Hs. destruct old; [congruence|].
      cbn [length] in Ht. lia. }
    specialize (IH t). lia.
  - rewrite replace_keep by assumption. cbn [length] in Hs |- *.
    specialize (IH s). lia.
Qed.

Lemma replace_present_longer (old new : text) :
  old <> [] -> (length old < length new)%nat ->
  forall s : text, occurs old s ->
    (length s < length (replace old new s))%nat.
Proof.
  intros Hold Hlen. induction s as [|c s IH]; intros Hocc.
  - destruct Hocc as (before & after & Hs).
    destruct before; [destruct old; [congruence|discriminate]|discriminate].
  - destruct (starts_with old (c :: s)) eqn:E.
    + apply starts_with_spec in E as [t Ht]. rewrite Ht.
      rewrite replace_match, !length_app by exact Hold.
      pose proof (replace_grows old new Hold ltac:(lia) (length t) t
                    ltac:(lia)).
      lia.
    + rewrite replace_keep by assumption. cbn [length].
      specialize (IH (occurs_uncons old c s Hocc E)). lia.
Qed.

(** X8. The temporary JPEG path is the PNG path itself exactly when
    [".png"] occurs nowhere in the PNG path; a path that contains [".png"]
    always gets a different, longer name. *)
Theorem tmp_jpg_path_same_iff (png_path : text) :
  tmp_jpg_path png_path = png_path <-> ~ occurs (chars ".png") png_path.
Proof.
  unfold tmp_jpg_path. split.
  - intros Heq Hocc.
    pose proof (replace_present_longer (chars ".png") (chars "_tmp.jpg")
                  ltac:(discriminate) ltac:(cbn; lia) png_path Hocc) as Hlt.
    rewrite Heq in Hlt. lia.
  - apply replace_absent. discriminate.
Qed.

(** X9. For a path that ends in [".png"] and has no earlier [".png"] in
    it, the temporary path is the same path with the ending replaced by
    ["_tmp.jpg"]. *)
Theorem tmp_jpg_path_of_png (stem : text) :
  ~ occurs (chars ".png") (stem ++ chars ".pn") ->
  tmp_jpg_path (stem ++ chars ".png") = stem ++ chars "_tmp.jpg".
Proof.
  unfold tmp_jpg_path. induction stem as [|c stem IH]; intros Hno.
  - reflexivity.
  - assert (Hsw : starts_with (chars ".png") ((c :: stem) ++ chars ".png")
                  = false).
    { destruct (starts_with _ _) eqn:E; [|reflexivity].
      exfalso. apply Hno. apply starts_with_spec in E as [t Ht].
      destruct (exists_last (l := t)) as (t' & x & ->).
      { intros ->. apply (f_equal (@length ascii)) in Ht.
        rewrite !length_app in Ht. cbn [length chars list_ascii_of_string] in Ht.
        lia. }
      exists [], t'. cbn [app].
      change (chars ".png") with (chars ".pn" ++ chars "g") in Ht at 1.
      rewrite !app_assoc in Ht. apply app_inj_tail in Ht as [Ht _].
      exact Ht. }
    cbn [app] in Hsw |- *.
    rewrite replace_keep by (discriminate || exact Hsw).
    f_equal. apply IH. intros Hocc. apply Hno. cbn [app].
    apply occurs_cons, Hocc.
Qed.

Lemma tmp_jpg_path_of_png_witness :
  ~ occurs (chars ".png") (chars "/tmp/frames/shot_001" ++ chars ".pn") /\
  tmp_jpg_path (chars "/tmp/frames/shot_001" ++ chars ".png")
  = chars "/tmp/frames/shot_001" ++ chars "_tmp.jpg".
Proof.
  assert (H : ~ occurs (chars ".png")
                (chars "/tmp/frames/shot_001" ++ chars ".pn")).
  { intros Hocc.
    pose proof (replace_present_longer (chars ".png") (chars "_tmp.jpg")
                  ltac:(discriminate) ltac:(cbn; lia) _ Hocc) as Hlt.
    vm_compute in Hlt. lia. }
  split; [exact H|].
  exact (tmp_jpg_path_of_png (chars "/tmp/frames/shot_001") H).
Defined.

(** *** The loop over the input files *)

Section Sips.

Variable sips : text -> text -> conversion.
Variable store : text -> bytes -> bool.

Lemma sips_loop_fatal (png_files : list text) (png_path : text)
    (jpeg_data : bytes) :
  In png_path png_files ->
  sips png_path (tmp_jpg_path png_path) = Converted jpeg_data ->
  (forall w h, _jpeg_dimensions jpeg_data <> Ok (w, h)) ->
  forall pages, sips_loop sips png_files pages = None.
Proof.
  intros Hin Hconv Hbad.
  induction png_files as [|p rest IH]; intros pages; [destruct Hin|].
  cbn [sips_loop].
  destruct Hin as [->|Hin].
  - rewrite Hconv.
    destruct (_jpeg_dimensions jpeg_data) as [[w h]| |];
      [exfalso; exact (Hbad w h eq_refl)|reflexivity..].
  - destruct (sips p (tmp_jpg_path p)) as [d| |]; [|apply IH, Hin|reflexivity].
    destruct (_jpeg_dimensions d) as [[w h]| |]; [apply IH, Hin|reflexivity..].
Qed.

Lemma sips_loop_skip (before : list text) (png_path : text)
    (after : list text) :
  sips png_path (tmp_jpg_path png_path) = NotConverted ->
  forall pages,
    sips_loop sips (before ++ png_path :: after) pages
    = sips_loop sips (before ++ after) pages.
Proof.
  intros Hskip. induction before as [|p before IH]; intros pages.
  - cbn [app sips_loop]. rewrite Hskip. reflexivity.
  - cbn [app sips_loop].
    destruct (sips p (tmp_jpg_path p)) as [d| |]; [|apply IH|reflexivity].
    destruct (_jpeg_dimensions d) as [[w h]| |]; [apply IH|reflexivity..].
Qed.

Lemma sips_loop_pages (png_files : list text) :
  Forall (passes sips) png_files ->
  forall pages,
    sips_loop sips png_files pages
    = Some (pages ++ omap (page_of sips) png_files).
Proof.
  induction 1 as [|p rest Hp _ IH]; intros pages.
  - cbn. rewrite app_nil_r. reflexivity.
  - cbn [sips_loop omap list_omap]. unfold passes in Hp. unfold page_of at 1.
    destruct (sips p (tmp_jpg_path p)) as [d| |]; [|apply IH|destruct Hp].
    destruct Hp as (w & h & ->). rewrite IH, <- app_assoc. reflexivity.
Qed.

(** X10. One converted image whose header cannot be parsed makes the
    whole call fail: [combine_via_sips] returns [False] and stores
    nothing, whatever the other files are, because the [ValueError] is
    caught outside the loop. *)
Theorem combine_via_sips_bad_image
    (png_files : list text) (output_path png_path : text)
    (jpeg_data : bytes) :
  In png_path png_files ->
  sips png_path (tmp_jpg_path png_path) = Converted jpeg_data ->
  _jpeg_dimensions jpeg_data = Raise parse_failure ->
  combine_via_sips sips store png_files output_path = (false, None).
Proof.
  intros Hin Hconv Hbad. unfold combine_via_sips.
  rewrite (sips_loop_fatal png_files png_path jpeg_data Hin Hconv);
    [reflexivity|].
  intros w h. rewrite Hbad. discriminate.
Qed.

(** X11. A file that [sips] fails to convert is passed over silently:
    the call behaves as if that file were not in the list. *)
Theorem combine_via_sips_skips
    (before : list text) (png_path : text) (after : list text)
    (output_path : text) :
  sips png_path (tmp_jpg_path png_path) = NotConverted ->
  combine_via_sips sips store (before ++ png_path :: after) output_path
  = combine_via_sips sips store (before ++ after) output_path.
Proof.
  intros Hskip. unfold combine_via_sips.
  rewrite (sips_loop_skip before png_path after Hskip). reflexivity.
Qed.

(** X12. When no step raises, the document is built from the converted
    images in the order of the input files, each with the dimensions the
    parser read from it.  With no converted image the call returns
    [False] and stores nothing; otherwise the builder's buffer is handed
    to the file system, and the call returns [True] exactly when storing
    it went through. *)
Theorem combine_via_sips_document
    (png_files : list text) (output_path : text) :
  Forall (passes sips) png_files ->
  let pages := omap (page_of sips) png_files in
  (pages = [] /\
   combine_via_sips sips store png_files output_path = (false, None)) \/
  (exists pdf_bytes,
     pages <> [] /\
     _build_jpeg_pdf pages = Ok pdf_bytes /\
     combine_via_sips sips store png_files output_path
     = if store output_path pdf_bytes
       then (true, Some pdf_bytes) else (false, None)).
Proof.
  intros Hpass pages. unfold combine_via_sips.
  rewrite (sips_loop_pages png_files Hpass []). cbn [app]. fold pages.
  destruct pages as [|p pages'] eqn:E; [left; split; reflexivity|right].
  destruct (build_layout (p :: pages')) as (_ & _ & Hb).
  eexists. split; [discriminate|]. split; [exact Hb|].
  rewrite Hb. reflexivity.
Qed.

End Sips.

Lemma combine_via_sips_bad_image_witness :
  let sips := fun (_ _ : text) => Converted truncated_jpeg in
  In (chars "a.png") [chars "a.png"] /\
  sips (chars "a.png") (tmp_jpg_path (chars "a.png"))
  = Converted truncated_jpeg /\
  _jpeg_dimensions truncated_jpeg = Raise parse_failure /\
  combine_via_sips sips (fun _ _ => true) [chars "a.png"] (chars "out.pdf")
  = (false, None).
Proof.
  intros sips.
  assert (H1 : In (chars "a.png") [chars "a.png"]) by (left; reflexivity).
  assert (H2 : sips (chars "a.png") (tmp_jpg_path (chars "a.png"))
               = Converted truncated_jpeg) by reflexivity.
  assert (H3 : _jpeg_dimensions truncated_jpeg = Raise parse_failure)
    by (vm_compute; reflexivity).
  split; [exact H1|]. split; [exact H2|]. split; [exact H3|].
  exact (combine_via_sips_bad_image sips (fun _ _ => true)
           [chars "a.png"] (chars "out.pdf") (chars "a.png")
           truncated_jpeg H1 H2 H3).
Defined.

Lemma combine_via_sips_skips_witness :
  let sips := fun (png_path _ : text) =>
    if starts_with (chars "b") png_path then NotConverted
    else Converted minimal_jpeg in
  sips (chars "b.png") (tmp_jpg_path (chars "b.png")) = NotConverted /\
  combine_via_sips sips (fun _ _ => true)
    ([chars "a.png"] ++ chars "b.png" :: [chars "c.png"]) (chars "out.pdf")
  = combine_via_sips sips (fun _ _ => true)
      ([chars "a.png"] ++ [chars "c.png"]) (chars "out.pdf").
Proof.
  intros sips.
  assert (H : sips (chars "b.png") (tmp_jpg_path (chars "b.png"))
              = NotConverted) by reflexivity.
  split; [exact H|].
  exact (combine_via_sips_skips sips (fun _ _ => true)
           [chars "a.png"] (chars "b.png") [chars "c.png"]
           (chars "out.pdf") H).
Defined.

Lemma combine_via_sips_document_witness :
  let sips := fun (png_path _ : text) =>
    if starts_with (chars "b") png_path then NotConverted
    else Converted minimal_jpeg in
  Forall (passes sips) [chars "a.png"; chars "b.png"] /\
  omap (page_of sips) [chars "a.png"; chars "b.png"]
  = [(minimal_jpeg, 100, 50)] /\
  exists pdf_bytes,
    _build_jpeg_pdf [(minimal_jpeg, 100, 50)] = Ok pdf_bytes /\
    combine_via_sips sips (fun _ _ => true)
      [chars "a.png"; chars "b.png"] (chars "out.pdf")
    = (true, Some pdf_bytes).
Proof.
  intros sips.
  assert (Hdim : _jpeg_dimensions minimal_jpeg = Ok (100, 50))
    by (vm_compute; reflexivity).
  assert (Hpass : Forall (passes sips) [chars "a.png"; chars "b.png"]).
  { repeat constructor. unfold passes. cbn. exists 100, 50. exact Hdim. }
  assert (Hpages : omap (page_of sips) [chars "a.png"; chars "b.png"]
                   = [(minimal_jpeg, 100, 50)])
    by (vm_compute; reflexivity).
  split; [exact Hpass|]. split; [exact Hpages|].
  destruct (combine_via_sips_document sips (fun _ _ => true)
              [chars "a.png"; chars "b.png"] (chars "out.pdf") Hpass)
    as [[Hnil _]|(pdf & _ & Hb & Hc)].
  - rewrite Hpages in Hnil. discriminate.
  - rewrite Hpages in Hb. exists pdf. split; [exact Hb|exact Hc].
Defined.
